(** * The account store of [account_manager.py]

    A shallow embedding of the [AccountManager] class: the two SQLite
    tables it creates, the statements each method executes, and the
    properties of the store that follow from them.

    Modelling conventions.
    - A table is the list of its rows in rowid order.  The [id] column is
      [INTEGER PRIMARY KEY AUTOINCREMENT], so the store also keeps the
      [sqlite_sequence] counter of each table.
    - [TIMESTAMP] values are whole seconds on the UTC time line
      ([CURRENT_TIMESTAMP] has one-second resolution); the clock reading
      of a statement is an explicit argument [now] of the method.
    - [INTEGER] values and bound [int] parameters are integers of [Z].
      SQLite keeps an [INTEGER] in 64 bits: the statements are written
      for rows whose values stay in that range, and the two places
      where the code leaves it, the credit of points and the [SUM] of
      [get_stats], are modelled with their outcome
      ([AccountManager.update_account_points], [sum_points]).  A table
      that holds a [REAL] in [points] is no store of the model.
    - A [float] is an IEEE 754 binary64 number ([spec_float] with 53
      bits of precision).
    - Strings are strings of bytes; their order is the byte order of
      SQLite's [BINARY] collation.
    - A nullable column is an [option]; [NULL] is [None].
    - Arguments have the types of the method signatures ([str], [bool],
      [int], and [None]-defaulted [str] as [option string]).
    - Faults of the storage layer itself (disk, locking) are outside the
      model: a statement always executes. *)

From Stdlib Require Import ZArith List String Bool Lia SpecFloat.
From Stdlib Require Import Ascii Sorted Permutation.
Import ListNotations.

Open Scope string_scope.
Open Scope Z_scope.

Definition timestamp : Type := Z.

(** ** Values passed to and returned by [json]

    The Python values the [json] module converts: [None], [bool], [int],
    [str], [list], [tuple], and [dict] with [str] keys ([float] is left
    out: no column of the store holds one). *)

#[local] Unset Elimination Schemes.
Inductive pyval : Type :=
| PyNone
| PyBool (b : bool)
| PyInt (z : Z)
| PyStr (s : string)
| PyList (l : list pyval)
| PyTuple (l : list pyval)
| PyDict (d : list (string * pyval)).
#[local] Set Elimination Schemes.

Definition pydict : Type := list (string * pyval).

(** ** Rows *)

(** [CREATE TABLE accounts]: column [created_at] defaults to
    [CURRENT_TIMESTAMP], [verified] to [FALSE] (the integer 0), [points]
    to 0, [status] to ['active']; the other nullable columns default to
    [NULL]. *)
Module Accounts.
Record row : Type := mk {
    id : Z;
    email : string;
    password : string;
    referral_code : string;
    created_at : timestamp;
    verified : Z;
    verification_code : option string;
    points : Z;
    last_task_run : option timestamp;
    status : string;
    cookies : option string;
    notes : option string
  }.
End Accounts.

(** [CREATE TABLE task_history].  The [details] column holds
    [json.dumps(details)]; the model keeps the dictionary it encodes. *)
Module TaskHistory.
Record row : Type := mk {
    id : Z;
    email : string;
    task_type : string;
    xp_earned : Z;
    completed_at : timestamp;
    details : option pydict
  }.
End TaskHistory.

(** ** The store *)

Record db : Type := mkDb {
  accounts : list Accounts.row;
  accounts_seq : Z;
  task_history : list TaskHistory.row;
  task_history_seq : Z
}.

(** The store right after [__init__] on a path that holds no database:
    [init_database] has created both tables, empty. *)
Definition init_database : db :=
  {| accounts := []; accounts_seq := 0;
     task_history := []; task_history_seq := 0 |}.

(** ** SQL helpers *)

(** The [sqlite3] module binds a Python [bool] as the integer 0 or 1. *)
Definition bind_bool (b : bool) : Z := if b then 1 else 0.

(** [AUTOINCREMENT]: one more than the largest rowid the table has ever
    held, which is the larger of the [sqlite_sequence] entry and the
    largest rowid present. *)
Definition next_rowid (ids : list Z) (seq : Z) : Z :=
  fold_right Z.max seq ids + 1.

(** [WHERE email = ?] under the default [BINARY] collation. *)
Definition email_is (e : string) (r : Accounts.row) : bool :=
  (Accounts.email r =? e)%string.

(** A stable insertion sort; [le a b] says that [a] may come before
    [b].  SQL leaves the order of rows with equal keys to the engine;
    the model keeps them in scan order. *)
Section OrderBy.
Context {A : Type} (le : A -> A -> bool).

Fixpoint insert_row (x : A) (l : list A) : list A :=
    match l with
    | [] => [x]
    | y :: l' => if le x y then x :: y :: l' else y :: insert_row x l'
    end.

Definition order_by (l : list A) : list A :=
    fold_right insert_row [] l.
End OrderBy.

(** ** Methods of [AccountManager] *)

(** [add_account]: [INSERT OR REPLACE INTO accounts (email, password,
    referral_code, verified, verification_code, cookies)].  A row whose
    [email] collides with the new one is deleted (the [UNIQUE]
    constraint under [REPLACE]), then the new row is inserted with a
    fresh [id] and the column defaults for [created_at], [points],
    [last_task_run], [status] and [notes].  The method returns [True];
    its [except] branches are taken on storage faults only. *)
Definition inserted_row (new_id : Z) (now : timestamp)
    (email password referral_code : string) (verified : bool)
    (verification_code cookies : option string) : Accounts.row :=
  {| Accounts.id := new_id;
     Accounts.email := email;
     Accounts.password := password;
     Accounts.referral_code := referral_code;
     Accounts.created_at := now;
     Accounts.verified := bind_bool verified;
     Accounts.verification_code := verification_code;
     Accounts.points := 0;
     Accounts.last_task_run := None;
     Accounts.status := "active";
     Accounts.cookies := cookies;
     Accounts.notes := None |}.

Definition add_account (now : timestamp)
    (email password referral_code : string) (verified : bool)
    (verification_code cookies : option string) (d : db) : bool * db :=
  let new_id := next_rowid (map Accounts.id (accounts d)) (accounts_seq d) in
  let new_row :=
    inserted_row new_id now email password referral_code verified
                 verification_code cookies in
  (true,
   {| accounts :=
        filter (fun r => negb (email_is email r)) (accounts d) ++ [new_row];
      accounts_seq := new_id;
      task_history := task_history d;
      task_history_seq := task_history_seq d |}).

(** [get_account_by_email]: [SELECT * FROM accounts WHERE email = ?],
    then [fetchone()]. *)
Definition get_account_by_email (email : string) (d : db)
  : option Accounts.row :=
  find (email_is email) (accounts d).

(** [get_all_accounts]: [SELECT * FROM accounts ORDER BY created_at
    DESC]. *)
Definition get_all_accounts (d : db) : list Accounts.row :=
  order_by
    (fun a b => Accounts.created_at b <=? Accounts.created_at a)
    (accounts d).

(** [get_verified_accounts]: [WHERE verified = 1 AND status =
    "active"]. *)
Definition get_verified_accounts (d : db) : list Accounts.row :=
  filter
    (fun r => (Accounts.verified r =? 1) && (Accounts.status r =? "active")%string)
    (accounts d).

(** [get_pending_accounts]: [WHERE verified = 0]. *)
Definition get_pending_accounts (d : db) : list Accounts.row :=
  filter (fun r => Accounts.verified r =? 0) (accounts d).

(** ** What a call yields *)

(** A Python expression either yields a value or raises.  The three
    exceptions are the ones the methods below can meet:
    [ZeroDivisionError] of a division, [OverflowError] of the [sqlite3]
    binding and of a division whose quotient is no [float], and
    [sqlite3.OperationalError] of a statement that SQLite gives up. *)
Inductive exn : Type :=
| ZeroDivisionError
| OverflowError
| OperationalError.

Inductive outcome (A : Type) : Type :=
| Returns (a : A)
| Raises (e : exn).
Arguments Returns {A} a.
Arguments Raises {A} e.

Definition bind {A B : Type} (m : outcome A) (k : A -> outcome B)
  : outcome B :=
  match m with
  | Returns a => k a
  | Raises e => Raises e
  end.

Notation "x <- m ;; k" := (bind m (fun x => k))
  (at level 61, m at next level, right associativity).

(** SQLite keeps an [INTEGER] in 64 bits, two's complement. *)
Definition int64_min : Z := - 2 ^ 63.
Definition int64_max : Z := 2 ^ 63 - 1.

Definition in_int64 (z : Z) : bool := (int64_min <=? z) && (z <=? int64_max).

(** ** Crediting points *)

(** The statement of [update_account_points]: [UPDATE accounts SET
    points = points + ?, last_task_run = CURRENT_TIMESTAMP WHERE email =
    ?], as it acts on rows whose [points] stay 64-bit integers.  The
    method around it, with the binding of its parameter and the sums
    that leave the integers, is [AccountManager.update_account_points]
    below. *)
Definition credit (now : timestamp) (points_earned : Z) (r : Accounts.row)
  : Accounts.row :=
  {| Accounts.id := Accounts.id r;
     Accounts.email := Accounts.email r;
     Accounts.password := Accounts.password r;
     Accounts.referral_code := Accounts.referral_code r;
     Accounts.created_at := Accounts.created_at r;
     Accounts.verified := Accounts.verified r;
     Accounts.verification_code := Accounts.verification_code r;
     Accounts.points := Accounts.points r + points_earned;
     Accounts.last_task_run := Some now;
     Accounts.status := Accounts.status r;
     Accounts.cookies := Accounts.cookies r;
     Accounts.notes := Accounts.notes r |}.

Definition update_account_points (now : timestamp) (email : string)
    (points_earned : Z) (d : db) : db :=
  {| accounts :=
       map (fun r => if email_is email r then credit now points_earned r else r)
           (accounts d);
     accounts_seq := accounts_seq d;
     task_history := task_history d;
     task_history_seq := task_history_seq d |}.

Module AccountManager.
(** The method [update_account_points] as a caller meets it.

    - The [sqlite3] binding turns [points_earned] into a 64-bit integer
      before the statement runs: outside that range it raises
      [OverflowError], and the store stays as it was.
    - SQLite computes [points + ?] in 64 bits.  When the sum of a row of
      the email does not fit, SQLite computes it in floating point and
      stores a [REAL]: the method returns, but the table no longer
      holds integers only and is no [db]; this is [Returns None].
    - Otherwise the method returns after the statement has run:
      [Returns (Some d')]. *)
Definition update_account_points (now : timestamp) (email : string)
    (points_earned : Z) (d : db) : outcome (option db) :=
  if negb (in_int64 points_earned) then Raises OverflowError
  else if forallb (fun r => in_int64 (Accounts.points r + points_earned))
                  (filter (email_is email) (accounts d))
       then Returns (Some (update_account_points now email points_earned d))
       else Returns None.
End AccountManager.

(** [record_task_completion]: [INSERT INTO task_history (email,
    task_type, xp_earned, details)], with [details] bound to
    [json.dumps(details) if details else None]: an absent or empty
    dictionary is stored as [NULL]. *)
Definition details_column (details : option pydict) : option pydict :=
  match details with
  | Some (_ :: _) => details
  | _ => None
  end.

Definition record_task_completion (now : timestamp)
    (email task_type : string) (xp_earned : Z) (details : option pydict)
    (d : db) : db :=
  let new_id :=
    next_rowid (map TaskHistory.id (task_history d)) (task_history_seq d) in
  {| accounts := accounts d;
     accounts_seq := accounts_seq d;
     task_history :=
       task_history d ++
       [ {| TaskHistory.id := new_id;
            TaskHistory.email := email;
            TaskHistory.task_type := task_type;
            TaskHistory.xp_earned := xp_earned;
            TaskHistory.completed_at := now;
            TaskHistory.details := details_column details |} ];
     task_history_seq := new_id |}.

(** [get_accounts_needing_tasks]: [WHERE verified = 1 AND status =
    'active' AND (last_task_run IS NULL OR datetime(last_task_run) <
    datetime('now', ?))], the parameter being [f'-{hours_since} hours'].
    For a negative [hours_since] the modifier reads ['--5 hours'], which
    SQLite rejects: [datetime] is then [NULL] and the comparison selects
    no row. *)
Definition cutoff (now : timestamp) (hours_since : Z) : option timestamp :=
  if hours_since <? 0 then None else Some (now - hours_since * 3600).

Definition needs_tasks (now : timestamp) (hours_since : Z)
    (r : Accounts.row) : bool :=
  (Accounts.verified r =? 1)
  && (Accounts.status r =? "active")%string
  && match Accounts.last_task_run r with
     | None => true
     | Some t =>
         match cutoff now hours_since with
         | Some c => t <? c
         | None => false
         end
     end.

Definition get_accounts_needing_tasks (now : timestamp) (hours_since : Z)
    (d : db) : list Accounts.row :=
  filter (needs_tasks now hours_since) (accounts d).

(** [delete_account]: [DELETE FROM accounts WHERE email = ?], then
    [DELETE FROM task_history WHERE email = ?]. *)
Definition delete_account (email : string) (d : db) : db :=
  {| accounts := filter (fun r => negb (email_is email r)) (accounts d);
     accounts_seq := accounts_seq d;
     task_history :=
       filter (fun h => negb (TaskHistory.email h =? email)%string)
              (task_history d);
     task_history_seq := task_history_seq d |}.

(** ** Statistics *)

(** Python's [float] is the IEEE 754 binary64 format: 53 bits of
    precision, exponents below 1024. *)
Definition float : Type := spec_float.

(** The [float] of an [int] that has one. *)
Definition float_of_int (z : Z) : float := binary_normalize 53 1024 z 0 false.

(** [x * n] for a [float] [x] and an [int] [n]: [n] is converted, then
    the product is rounded to the nearest [float]. *)
Definition float_mul_int (x : float) (n : Z) : float :=
  SFmul 53 1024 x (float_of_int n).

(** The exact quotient of two [int]s, rounded to the nearest [float],
    ties to even; a zero quotient takes the sign of the division. *)
Definition nearest_quotient (a b : Z) : float :=
  match a with
  | 0 => S754_zero (b <? 0)
  | _ =>
      let '(m, e, l) :=
        SFdiv_core_binary 53 1024 (Z.abs a) 0 (Z.abs b) 0 in
      binary_round_aux 53 1024 (xorb (a <? 0) (b <? 0)) m e l
  end.

(** True division [a / b] of two [int]s: [ZeroDivisionError] for a zero
    divisor, [OverflowError] when the quotient rounds past the largest
    [float] (from [2^1024 - 2^970] on in absolute value), else the
    nearest [float]. *)
Definition truediv (a b : Z) : outcome float :=
  if b =? 0 then Raises ZeroDivisionError
  else if (2 ^ 1024 - 2 ^ 970) * Z.abs b <=? Z.abs a
       then Raises OverflowError
       else Returns (nearest_quotient a b).

(** [SELECT COUNT( * ) FROM accounts [WHERE ...]]. *)
Definition count_where (p : Accounts.row -> bool) (d : db) : Z :=
  Z.of_nat (List.length (filter p (accounts d))).

(** The accumulator of SQLite's [SUM] over integers: the values are
    added one by one in 64 bits, and the statement fails with
    [integer overflow] as soon as a partial sum does not fit. *)
Fixpoint sum_from (acc : Z) (values : list Z) : outcome Z :=
  match values with
  | [] => Returns acc
  | v :: values' =>
      if in_int64 (acc + v) then sum_from (acc + v) values'
      else Raises OperationalError
  end.

(** [SELECT SUM(points) FROM accounts], the rows taken in table order:
    [NULL] over no rows. *)
Definition sum_points (d : db) : outcome (option Z) :=
  match accounts d with
  | [] => Returns None
  | rows => s <- sum_from 0 (map Accounts.points rows) ;; Returns (Some s)
  end.

(** [SELECT referral_code, COUNT( * ) AS count ... GROUP BY referral_code
    ORDER BY count DESC]: one group per distinct code, sorted by falling
    count; SQLite hands out groups of equal count from the larger code
    to the smaller. *)
Definition group_by_referral_code (rows : list Accounts.row)
  : list (string * Z) :=
  let codes := map Accounts.referral_code rows in
  map (fun c => (c, Z.of_nat (count_occ string_dec codes c)))
      (order_by (fun a b => String.leb b a) (nodup string_dec codes)).

(** The value of [verification_rate]: the [int] [0] of the [else]
    branch, or the [float] of the division. *)
Inductive number : Type :=
| IntValue (z : Z)
| FloatValue (x : float).

Record stats : Type := mkStats {
  total_accounts : Z;
  verified_accounts : Z;
  pending_accounts : Z;
  total_points : Z;
  verification_rate : number;
  referral_stats : list (string * Z)
}.

(** [get_stats].  [total_points] is [cursor.fetchone()[0] or 0], and
    [verification_rate] is the conditional expression
    [(verified_accounts / total_accounts * 100) if total_accounts > 0
    else 0]. *)
Definition get_stats (d : db) : outcome stats :=
  let total := count_where (fun _ => true) d in
  let verified := count_where (fun r => Accounts.verified r =? 1) d in
  let pending := count_where (fun r => Accounts.verified r =? 0) d in
  sum <- sum_points d ;;
  let points := match sum with Some s => s | None => 0 end in
  let histogram :=
    order_by (fun a b => snd b <=? snd a)
             (group_by_referral_code (accounts d)) in
  rate <- (if 0 <? total
           then q <- truediv verified total ;;
                Returns (FloatValue (float_mul_int q 100))
           else Returns (IntValue 0)) ;;
  Returns {| total_accounts := total;
             verified_accounts := verified;
             pending_accounts := pending;
             total_points := points;
             verification_rate := rate;
             referral_stats := histogram |}.

(** ** JSON export *)

(** A JSON document as [json.dump] writes it and [json.load] reads it.
    The model stops at the document: its layout as text ([indent=2])
    and the file it is written to are the business of the [json]
    module and of the file system. *)
#[local] Unset Elimination Schemes.
Inductive json : Type :=
| JNull
| JBool (b : bool)
| JNumber (z : Z)
| JString (s : string)
| JArray (items : list json)
| JObject (members : list (string * json)).
#[local] Set Elimination Schemes.

(** The conversion table of the encoder: [None] is [null], a [bool]
    [true] or [false], an [int] a number, a [str] a string, a [list] or
    a [tuple] an array, a [dict] an object. *)
Fixpoint json_dump (v : pyval) : json :=
  match v with
  | PyNone => JNull
  | PyBool b => JBool b
  | PyInt z => JNumber z
  | PyStr s => JString s
  | PyList l => JArray (map json_dump l)
  | PyTuple l => JArray (map json_dump l)
  | PyDict d => JObject (map (fun kv => (fst kv, json_dump (snd kv))) d)
  end.

(** The conversion table of the decoder: an array is read as a
    [list]. *)
Fixpoint json_load (j : json) : pyval :=
  match j with
  | JNull => PyNone
  | JBool b => PyBool b
  | JNumber z => PyInt z
  | JString s => PyStr s
  | JArray items => PyList (map json_load items)
  | JObject members =>
      PyDict (map (fun kv => (fst kv, json_load (snd kv))) members)
  end.

(** The values that hold no [tuple]: those the decoder can give
    back. *)
Fixpoint tuple_free (v : pyval) : bool :=
  match v with
  | PyList l => forallb tuple_free l
  | PyTuple _ => false
  | PyDict d => forallb (fun kv => tuple_free (snd kv)) d
  | _ => true
  end.

(** [v[key]] on a dictionary. *)
Definition getitem (key : string) (v : pyval) : option pyval :=
  match v with
  | PyDict d =>
      option_map snd (find (fun kv => (fst kv =? key)%string) d)
  | _ => None
  end.

Section JsonExport.
  (** The text SQLite returns for a timestamp column
      (['YYYY-MM-DD HH:MM:SS']). *)
Variable sqlite_text : timestamp -> string.

Definition text_or_none (s : option string) : pyval :=
    match s with
    | Some s => PyStr s
    | None => PyNone
    end.

  (** [dict(row)] for a row of [SELECT * FROM accounts]: the columns in
      their declaration order. *)
Definition dict_of_row (r : Accounts.row) : pydict :=
    [ ("id", PyInt (Accounts.id r));
      ("email", PyStr (Accounts.email r));
      ("password", PyStr (Accounts.password r));
      ("referral_code", PyStr (Accounts.referral_code r));
      ("created_at", PyStr (sqlite_text (Accounts.created_at r)));
      ("verified", PyInt (Accounts.verified r));
      ("verification_code", text_or_none (Accounts.verification_code r));
      ("points", PyInt (Accounts.points r));
      ("last_task_run",
        text_or_none (option_map sqlite_text (Accounts.last_task_run r)));
      ("status", PyStr (Accounts.status r));
      ("cookies", text_or_none (Accounts.cookies r));
      ("notes", text_or_none (Accounts.notes r)) ].

  (** What [get_all_accounts] hands to its caller: [[dict(row) for row
      in cursor.fetchall()]]. *)
Definition listed_accounts (d : db) : list pyval :=
    map (fun r => PyDict (dict_of_row r)) (get_all_accounts d).

  (** [export_to_json]: the document [json.dump] writes to the file;
      [exported_at] is [datetime.now().isoformat()]. *)
Definition export_to_json (exported_at : string) (d : db) : json :=
    let accounts := listed_accounts d in
    json_dump
      (PyDict [ ("exported_at", PyStr exported_at);
                ("total_accounts", PyInt (Z.of_nat (List.length accounts)));
                ("accounts", PyList accounts) ]).
End JsonExport.

(** ** Histories of calls *)

(** The mutating methods; the queries leave the store as it is. *)
Inductive call : Type :=
| AddAccount (email password referral_code : string) (verified : bool)
             (verification_code cookies : option string)
| UpdateAccountPoints (email : string) (points_earned : Z)
| RecordTaskCompletion (email task_type : string) (xp_earned : Z)
                       (details : option pydict)
| DeleteAccount (email : string).

Definition exec (now : timestamp) (c : call) (d : db) : db :=
  match c with
  | AddAccount e p rc v vc ck => snd (add_account now e p rc v vc ck d)
  | UpdateAccountPoints e n => update_account_points now e n d
  | RecordTaskCompletion e t xp dt => record_task_completion now e t xp dt d
  | DeleteAccount e => delete_account e d
  end.

(** A history is a list of calls, each with the clock reading at which
    it runs.  It lists the calls whose statements ran: a call that
    raised in the binding of its parameters has run none, left the
    store as it was, and has no entry. *)
Definition run (history : list (timestamp * call)) (d : db) : db :=
  fold_left (fun d tc => exec (fst tc) (snd tc) d) history d.

(** ** Predicates on stores and calls *)

(** [row_holds Q e d]: the row of [e], when there is one, satisfies
    [Q]. *)
Definition row_holds (Q : Accounts.row -> Prop) (e : string) (d : db)
  : Prop :=
  match get_account_by_email e d with
  | Some r => Q r
  | None => True
  end.

(** The calls that insert a row for [e]. *)
Definition inserts (e : string) (c : call) : bool :=
  match c with
  | AddAccount e' _ _ _ _ _ => (e' =? e)%string
  | _ => false
  end.


(** Every row holds 0 or 1 in [verified]. *)
Definition verified_is_boolean (d : db) : Prop :=
  Forall (fun r => Accounts.verified r = 0 \/ Accounts.verified r = 1)
         (accounts d).

(** ** A small store

    Four signups, then task runs of two of them: [b] ran 21 hours and
    [a] 10 hours before the clock reading [sample_now]; [c] never ran
    and [d] is not verified. *)

Definition sample_now : timestamp := 100000.

Definition sample_history : list (timestamp * call) :=
  [ (1000, AddAccount "a@example.com" "pw-a" "REF1" true
                      (Some "111111") (Some "sid=a"));
    (2000, AddAccount "b@example.com" "pw-b" "REF1" true None None);
    (3000, AddAccount "c@example.com" "pw-c" "REF2" true None None);
    (4000, AddAccount "d@example.com" "pw-d" "REF1" false None None);
    (sample_now - 21 * 3600, UpdateAccountPoints "b@example.com" 30);
    (sample_now - 21 * 3600,
      RecordTaskCompletion "b@example.com" "daily_checkin" 30 None);
    (sample_now - 10 * 3600, UpdateAccountPoints "a@example.com" 10);
    (sample_now - 10 * 3600,
      RecordTaskCompletion "a@example.com" "daily_checkin" 10
                           (Some [("streak", PyInt 1)])) ].

Definition sample_store : db := run sample_history init_database.

(** ** CSV export *)

Section CsvExport.
Variable sqlite_text : timestamp -> string.

(** [csv.DictWriter]: the cells of a dictionary in the order of the
    field names, a missing key giving the empty string. *)
Definition dict_to_list (fieldnames : list string) (rowdict : pydict)
  : list pyval :=
  map (fun key =>
         match find (fun kv => (fst kv =? key)%string) rowdict with
         | Some kv => snd kv
         | None => PyStr ""
         end)
      fieldnames.

(** [export_to_csv]: the records handed to the CSV writer, in order.
    Nothing is written for an empty list of accounts; otherwise the
    header (the keys of the first dictionary) and then one record per
    account.  How a cell is spelled out as text is left to the [csv]
    module. *)
Definition export_to_csv (d : db) : list (list pyval) :=
  match map (dict_of_row sqlite_text) (get_all_accounts d) with
  | [] => []
  | (first :: _) as accounts =>
      let fieldnames := map fst first in
      map PyStr fieldnames :: map (dict_to_list fieldnames) accounts
  end.
End CsvExport.

(** ** More predicates on stores and calls *)

(** No two rows share an email (the [UNIQUE] constraint). *)
Definition unique_emails (d : db) : Prop :=
  NoDup (map Accounts.email (accounts d)).

(** The ids are positive, grow along the table, and none exceeds the
    [sqlite_sequence] counter. *)
Definition ids_in_sequence (d : db) : Prop :=
  0 <= accounts_seq d
  /\ StronglySorted Z.lt (map Accounts.id (accounts d))
  /\ Forall (fun i => 0 < i <= accounts_seq d) (map Accounts.id (accounts d)).

(** The columns no method writes still hold their defaults. *)
Definition defaults_kept (d : db) : Prop :=
  Forall (fun r => Accounts.status r = "active" /\ Accounts.notes r = None)
         (accounts d).

Definition is_delete (c : call) : bool :=
  match c with
  | DeleteAccount _ => true
  | _ => false
  end.

Definition is_record (c : call) : bool :=
  match c with
  | RecordTaskCompletion _ _ _ _ => true
  | _ => false
  end.

(** What two versions of a row share when only [points] and
    [last_task_run] may differ, and [points] has not fallen. *)
Definition credited (r r' : Accounts.row) : Prop :=
  Accounts.id r' = Accounts.id r
  /\ Accounts.email r' = Accounts.email r
  /\ Accounts.password r' = Accounts.password r
  /\ Accounts.referral_code r' = Accounts.referral_code r
  /\ Accounts.created_at r' = Accounts.created_at r
  /\ Accounts.verified r' = Accounts.verified r
  /\ Accounts.verification_code r' = Accounts.verification_code r
  /\ Accounts.status r' = Accounts.status r
  /\ Accounts.cookies r' = Accounts.cookies r
  /\ Accounts.notes r' = Accounts.notes r
  /\ Accounts.points r <= Accounts.points r'.

(** The email a call is about. *)
Definition call_email (c : call) : string :=
  match c with
  | AddAccount e _ _ _ _ _ => e
  | UpdateAccountPoints e _ => e
  | RecordTaskCompletion e _ _ _ => e
  | DeleteAccount e => e
  end.

(** * The address generator of [mail_generator.py] *)

(** What the [random] module hands out during one call of the
    generator: the functions [randint] and [sample], and the indices
    [random.choice] and [random.choices] pick for the adjective, the
    noun, the three digits and the domain of a temporary address. *)
Record random_draws : Type := mkDraws {
  randint : Z -> Z -> Z;
  sample : list nat -> nat -> list nat;
  choice_adjective : nat;
  choice_noun : nat;
  choices_digits : list nat;
  choice_domain : nat
}.

(** The draws the [random] module can make: [randint a b] lies in
    [a..b], [sample population k] is [k] elements of the population at
    distinct positions, and an index lies within its sequence. *)
Definition fair_draws (r : random_draws) : Prop :=
  (forall a b, a <= b -> a <= randint r a b <= b)
  /\ (forall population k,
        NoDup population -> (k <= List.length population)%nat ->
        NoDup (sample r population k)
        /\ incl (sample r population k) population
        /\ List.length (sample r population k) = k)
  /\ (choice_adjective r < 8)%nat
  /\ (choice_noun r < 8)%nat
  /\ Forall (fun i => (i < 10)%nat) (choices_digits r)
  /\ List.length (choices_digits r) = 3%nat
  /\ (choice_domain r < 5)%nat.

(** [needle in hay]. *)
Definition py_in (needle hay : string) : bool :=
  match index 0 needle hay with
  | Some _ => true
  | None => false
  end.

(** [s.split("@")[0]]: the characters before the first ["@"]. *)
Fixpoint before_at (s : string) : string :=
  match s with
  | EmptyString => EmptyString
  | String c s' =>
      if (c =? "@")%char then EmptyString else String c (before_at s')
  end.

(** [l.insert(pos, x)]: [x] goes before the element at [pos], or to the
    end when the list is shorter. *)
Definition list_insert {A : Type} (pos : nat) (x : A) (l : list A)
  : list A :=
  (firstn pos l ++ x :: skipn pos l)%list.

(** The loop [for pos in dot_positions: chars.insert(pos, '.')]. *)
Definition insert_dots (dot_positions : list nat) (chars : list ascii)
  : list ascii :=
  fold_left (fun cs pos => list_insert pos "."%char cs) dot_positions chars.
Arguments insert_dots : simpl never.

(** [generate_temp_email]. *)
Definition generate_temp_email (r : random_draws) : string :=
  let adjectives :=
    ["quick"; "fast"; "smart"; "clever"; "bright"; "sharp"; "wise"; "bold"] in
  let nouns :=
    ["fox"; "wolf"; "bear"; "eagle"; "hawk"; "lion"; "tiger"; "owl"] in
  let numbers :=
    string_of_list_ascii
      (map (fun i => nth i (list_ascii_of_string "0123456789") "0"%char)
           (choices_digits r)) in
  let username :=
    nth (choice_adjective r) adjectives ""
    ++ nth (choice_noun r) nouns "" ++ numbers in
  let domains :=
    ["tempmail.com"; "10minutemail.net"; "mailinator.com";
     "guerrillamail.com"; "yopmail.com"] in
  username ++ "@" ++ nth (choice_domain r) domains "".

(** A call of the generator returns an address or raises the
    [ValueError] of [random.randint] on an empty range. *)
Inductive generated : Type :=
| Generated (email : string)
| RaisesValueError.

(** [generate_gmail_variation]. *)
Definition generate_gmail_variation (r : random_draws) (base_gmail : string)
  : generated :=
  if (base_gmail =? "")%string || negb (py_in "@gmail.com" base_gmail)
  then Generated (generate_temp_email r)
  else
    let local_part := before_at base_gmail in
    let upper := Z.min 3 (Z.of_nat (String.length local_part) - 1) in
    if upper <? 1 then RaisesValueError
    else
      let num_dots := randint r 1 upper in
      let chars := list_ascii_of_string local_part in
      let available_positions := seq 1 (List.length chars - 1) in
      let num_dots :=
        if Z.of_nat (List.length available_positions) <? num_dots
        then Z.of_nat (List.length available_positions)
        else num_dots in
      let dot_positions := sample r available_positions (Z.to_nat num_dots) in
      let dot_positions :=
        order_by (fun a b => (b <=? a)%nat) dot_positions in
      let chars := insert_dots dot_positions chars in
      Generated (string_of_list_ascii chars ++ "@gmail.com").

(** [getmails] returns one address for [count = 1], a list otherwise,
    or raises what the generator raised. *)
Inductive mails : Type :=
| OneMail (email : string)
| Mails (emails : list string)
| MailsValueError.

(** The loop [for _ in range(count)]: [draws i] is what [random] hands
    out in round [i]. *)
Fixpoint generate_each (generate : random_draws -> generated)
    (draws : nat -> random_draws) (first rounds : nat)
  : option (list string) :=
  match rounds with
  | O => Some []
  | S rounds' =>
      match generate (draws first) with
      | Generated email =>
          option_map (cons email)
                     (generate_each generate draws (S first) rounds')
      | RaisesValueError => None
      end
  end.

(** [getmails].  [base_gmail] is what the configuration gives: the
    empty string when the file cannot be read or has no such key. *)
Definition getmails (base_gmail : string) (draws : nat -> random_draws)
    (count : Z) : mails :=
  let generate r :=
    if (base_gmail =? "")%string
    then Generated (generate_temp_email r)
    else generate_gmail_variation r base_gmail in
  match generate_each generate draws 0 (Z.to_nat count) with
  | None => MailsValueError
  | Some emails =>
      if count =? 1
      then match emails with
           | email :: _ => OneMail email
           | [] => MailsValueError (* not reached: one round, one address *)
           end
      else Mails emails
  end.

(** [generate_multiple_variations]. *)
Definition generate_multiple_variations (base_gmail : string)
    (draws : nat -> random_draws) (count : Z) : option (list string) :=
  generate_each (fun r => generate_gmail_variation r base_gmail)
                draws 0 (Z.to_nat count).

(** The characters of a local part that are not dots. *)
Definition without_dots (chars : list ascii) : list ascii :=
  filter (fun c => negb (c =? ".")%char) chars.

(** No two dots next to each other. *)
Fixpoint dots_apart (chars : list ascii) : bool :=
  match chars with
  | [] => true
  | c :: rest =>
      match rest with
      | c' :: _ => negb ((c =? ".")%char && (c' =? ".")%char)
      | [] => true
      end && dots_apart rest
  end.

(** Draws that always take the smallest value on offer. *)
Definition lowest_draws : random_draws :=
  {| randint := fun a _ => a;
     sample := fun population k => firstn k population;
     choice_adjective := 0;
     choice_noun := 0;
     choices_digits := [0; 0; 0]%nat;
     choice_domain := 0 |}.

(** * The task bot of [task_bot.py] and the daily run of [main.py] *)

(** The XP table: a dictionary from task names to XP values.  The
    values are taken to be integers, as the defaults are. *)
Definition xp_table : Type := list (string * Z).

(** [d[key] = value]: an existing key keeps its place. *)
Fixpoint dict_set (key : string) (value : Z) (d : xp_table) : xp_table :=
  match d with
  | [] => [(key, value)]
  | (k, v) :: d' =>
      if (k =? key)%string then (key, value) :: d'
      else (k, v) :: dict_set key value d'
  end.

(** [d.update(other)]. *)
Definition dict_update (d other : xp_table) : xp_table :=
  fold_left (fun d kv => dict_set (fst kv) (snd kv) d) other d.

(** [d.get(key, default)]. *)
Definition dict_get (key : string) (default : Z) (d : xp_table) : Z :=
  match find (fun kv => (fst kv =? key)%string) d with
  | Some kv => snd kv
  | None => default
  end.

Definition default_xp : xp_table :=
  [ ("checkin", 10); ("video", 5); ("article", 3); ("share", 5);
    ("like", 1); ("follow", 3); ("profile", 4) ].

(** [_load_task_xp].  [task_settings] is
    [config.get("task_settings", {})], or [None] when [config.json]
    cannot be read: the defaults are then returned as they are. *)
Definition _load_task_xp (task_settings : option xp_table) : xp_table :=
  match task_settings with
  | Some settings => dict_update default_xp settings
  | None => default_xp
  end.

(** The [complete_...] methods: each sleeps, then returns [True] and
    the XP of its task. *)
Definition complete_checkin (task_xp : xp_table) : bool * Z :=
  (true, dict_get "checkin" 10 task_xp).

Definition complete_watch_video (task_xp : xp_table) : bool * Z :=
  (true, dict_get "video" 5 task_xp).

Definition complete_read_article (task_xp : xp_table) : bool * Z :=
  (true, dict_get "article" 3 task_xp).

Definition complete_share (task_xp : xp_table) : bool * Z :=
  (true, dict_get "share" 5 task_xp).

Definition complete_like (task_xp : xp_table) : bool * Z :=
  (true, dict_get "like" 1 task_xp).

Definition complete_follow (task_xp : xp_table) : bool * Z :=
  (true, dict_get "follow" 3 task_xp).

Definition complete_profile_update (task_xp : xp_table) : bool * Z :=
  (true, dict_get "profile" 4 task_xp).

(** What [complete_all_tasks] returns: the dictionary of a failure
    ([success] false and an [error]), or the report of a run with its
    [success], [email], [total_xp] and the [success] and [xp] of each
    task (the time stamps of the report are left out). *)
Inductive task_outcome : Type :=
| TaskFailure (error : string)
| TaskReport (success : bool) (email : string) (total_xp : Z)
             (tasks : list (string * (bool * Z))).

(** [result.get("success")]. *)
Definition outcome_success (result : task_outcome) : bool :=
  match result with
  | TaskReport success _ _ _ => success
  | TaskFailure _ => false
  end.

(** [result.get("total_xp", 0)]. *)
Definition outcome_total_xp (result : task_outcome) : Z :=
  match result with
  | TaskReport _ _ total_xp _ => total_xp
  | TaskFailure _ => 0
  end.

(** The loop of [complete_all_tasks] over the task list: the XP of
    every successful task is added up. *)
Definition total_xp_of (tasks : list (string * (bool * Z))) : Z :=
  fold_left (fun (total : Z) (task : string * (bool * Z)) =>
               if fst (snd task) then total + snd (snd task) else total)
            tasks 0.

(** The task list of [complete_all_tasks], each task with what its
    method returns. *)
Definition all_tasks (task_xp : xp_table) : list (string * (bool * Z)) :=
  [ ("checkin", complete_checkin task_xp);
    ("video", complete_watch_video task_xp);
    ("article", complete_read_article task_xp);
    ("share", complete_share task_xp);
    ("like", complete_like task_xp);
    ("follow", complete_follow task_xp);
    ("profile", complete_profile_update task_xp) ].

Section TaskBot.
(** The outcome of [login] against the web service. *)
Variable login : string -> string -> bool.

(** [complete_all_tasks].  A missing or empty password is looked up in
    the store. *)
Definition complete_all_tasks (task_xp : xp_table) (d : db)
    (email : string) (password : option string) : task_outcome :=
  let stored :=
    option_map Accounts.password (get_account_by_email email d) in
  let looked_up :=
    match password with
    | Some given => if (given =? "")%string then stored else Some given
    | None => stored
    end in
  match looked_up with
  | None => TaskFailure "Account not found"
  | Some password =>
      if negb (login email password) then TaskFailure "Login failed"
      else
        let tasks := all_tasks task_xp in
        let total_xp := total_xp_of tasks in
        TaskReport (0 <? total_xp) email total_xp tasks
  end.

(** One round of the loop of [run_daily_tasks]: the tasks of one
    account, then the credit when they succeeded. *)
Definition daily_round (task_xp : xp_table) (clock : nat -> timestamp)
    (state : db * list task_outcome) (numbered : nat * Accounts.row)
  : db * list task_outcome :=
  let (d, results) := state in
  let (i, account) := numbered in
  let result :=
    complete_all_tasks task_xp d (Accounts.email account)
                       (Some (Accounts.password account)) in
  let d' :=
    if outcome_success result
    then update_account_points (clock i) (Accounts.email account)
                               (outcome_total_xp result) d
    else d in
  (d', (results ++ [result])%list).

(** [run_daily_tasks] of [main.py]: the store afterwards and the list
    of results.  [clock i] is the time at which the credit of round [i]
    is written. *)
Definition run_daily_tasks (task_settings : option xp_table)
    (clock : nat -> timestamp) (d : db) : db * list task_outcome :=
  match get_all_accounts d with
  | [] => (d, [])
  | accounts =>
      let task_xp := _load_task_xp task_settings in
      fold_left (daily_round task_xp clock)
                (combine (seq 0 (List.length accounts)) accounts)
                (d, [])
  end.
End TaskBot.

(** An entry of the list that [run_daily_tasks] returns: the result of
    [complete_all_tasks], or, for a round that raised, the dictionary of
    the [except] clause, with the email and the text of the
    exception. *)
Inductive daily_result : Type :=
| TaskResult (result : task_outcome)
| RoundError (email : string) (error : string).

Module SoSoValueBot.
(** [run_daily_tasks] with the credits made through the method
    [AccountManager.update_account_points].  A credit that raises is
    caught by the [except Exception] of its round: the round then adds
    an error entry in place of the result and the store stays as it
    was.  A credit that leaves no integer in [points] ends the
    description of the run, [None]. *)
Definition daily_round (login : string -> string -> bool)
    (task_xp : xp_table) (clock : nat -> timestamp)
    (state : db * list daily_result) (numbered : nat * Accounts.row)
  : option (db * list daily_result) :=
  let (d, results) := state in
  let (i, account) := numbered in
  let result :=
    complete_all_tasks login task_xp d (Accounts.email account)
                       (Some (Accounts.password account)) in
  if outcome_success result
  then
    match AccountManager.update_account_points
            (clock i) (Accounts.email account) (outcome_total_xp result) d
    with
    | Returns (Some d') => Some (d', (results ++ [TaskResult result])%list)
    | Returns None => None
    | Raises _ =>
        Some (d,
              (results ++
               [RoundError (Accounts.email account)
                  "Python int too large to convert to SQLite INTEGER"])%list)
    end
  else Some (d, (results ++ [TaskResult result])%list).

Definition next_round (login : string -> string -> bool)
    (task_xp : xp_table) (clock : nat -> timestamp)
    (state : option (db * list daily_result)) (numbered : nat * Accounts.row)
  : option (db * list daily_result) :=
  match state with
  | Some state => daily_round login task_xp clock state numbered
  | None => None
  end.

Definition run_daily_tasks (login : string -> string -> bool)
    (task_settings : option xp_table) (clock : nat -> timestamp) (d : db)
  : option (db * list daily_result) :=
  match get_all_accounts d with
  | [] => Some (d, [])
  | accounts =>
      let task_xp := _load_task_xp task_settings in
      fold_left (next_round login task_xp clock)
                (combine (seq 0 (List.length accounts)) accounts)
                (Some (d, []))
  end.
End SoSoValueBot.

(** * The Gmail setup of [main.py] *)

(** [s.endswith(suffix)]. *)
Definition py_endswith (suffix s : string) : bool :=
  (String.length suffix <=? String.length s)%nat
  && (substring (String.length s - String.length suffix)
                (String.length suffix) s =? suffix)%string.

(** [config[key] = value] on the configuration dictionary. *)
Fixpoint config_set (key : string) (value : pyval) (config : pydict)
  : pydict :=
  match config with
  | [] => [(key, value)]
  | (k, v) :: config' =>
      if (k =? key)%string then (key, value) :: config'
      else (k, v) :: config_set key value config'
  end.

(** [setup_gmail] either turns the address down, or writes it to the
    configuration and then prints three example variations, which may
    raise. *)
Inductive setup_outcome : Type :=
| SetupRejected
| SetupDone (config : pydict) (examples : option (list string)).

(** [setup_gmail]; [base_email] is the stripped input line, and [None]
    for the examples stands for the [ValueError] of the generator,
    raised after the configuration has been written. *)
Definition setup_gmail (config : pydict) (draws : nat -> random_draws)
    (base_email : string) : setup_outcome :=
  if negb (py_endswith "@gmail.com" base_email) then SetupRejected
  else
    SetupDone (config_set "base_gmail" (PyStr base_email) config)
              (generate_each
                 (fun r => generate_gmail_variation r base_email) draws 0 3).

(** * Properties *)

(** ** The methods on the small store *)

Example sample_get_all_accounts :
  map Accounts.email (get_all_accounts sample_store) =
  ["d@example.com"; "c@example.com"; "b@example.com"; "a@example.com"].
Proof. reflexivity. Qed.

Example sample_get_account_by_email :
  get_account_by_email "a@example.com" sample_store =
  Some {| Accounts.id := 1;
          Accounts.email := "a@example.com";
          Accounts.password := "pw-a";
          Accounts.referral_code := "REF1";
          Accounts.created_at := 1000;
          Accounts.verified := 1;
          Accounts.verification_code := Some "111111";
          Accounts.points := 10;
          Accounts.last_task_run := Some 64000;
          Accounts.status := "active";
          Accounts.cookies := Some "sid=a";
          Accounts.notes := None |}.
Proof. reflexivity. Qed.

Example sample_get_pending_accounts :
  map Accounts.email (get_pending_accounts sample_store) = ["d@example.com"].
Proof. reflexivity. Qed.

Example sample_get_accounts_needing_tasks :
  map Accounts.email (get_accounts_needing_tasks sample_now 20 sample_store)
  = ["b@example.com"; "c@example.com"].
Proof. reflexivity. Qed.

Example sample_get_stats :
  get_stats sample_store =
  Returns {| total_accounts := 4;
             verified_accounts := 3;
             pending_accounts := 1;
             total_points := 40;
             verification_rate :=
               FloatValue (S754_finite false 5277655813324800 (-46));
             referral_stats := [("REF1", 3); ("REF2", 1)] |}.
Proof. reflexivity. Qed.

(** The rate is a [float]: 3 of 4 is [75.0], that is [5277655813324800 *
    2^-46], and 1 of 3 is [33.33333333333333], that is
    [4691249611844266 * 2^-47], not the third of 100. *)
Example sample_verification_rates :
  (q <- truediv 3 4 ;; Returns (float_mul_int q 100))
  = Returns (S754_finite false 5277655813324800 (-46))
  /\ (q <- truediv 1 3 ;; Returns (float_mul_int q 100))
     = Returns (S754_finite false 4691249611844266 (-47))
  /\ (q <- truediv 2 3 ;; Returns (float_mul_int q 100))
     = Returns (S754_finite false 4691249611844266 (-46))
  /\ truediv 0 (-5) = Returns (S754_zero true)
  /\ truediv 1 0 = Raises ZeroDivisionError
  /\ truediv (2 ^ 1024) 1 = Raises OverflowError.
Proof. repeat split; reflexivity. Qed.

(** Groups of equal count come out from the larger code to the
    smaller. *)
Example sample_referral_ties :
  order_by (fun a b : string * Z => snd b <=? snd a)
    (group_by_referral_code
       (map (fun code =>
               Accounts.mk 0 "" "" code 0 0 None 0 None "active" None None)
            ["b"; "a"; "c"; "a"; "b"; "d"; "e"; "e"; "e"]))
  = [("e", 3); ("b", 2); ("a", 2); ("d", 1); ("c", 1)].
Proof. reflexivity. Qed.

(** Two accounts with [2^62] points each: every credit fits, their
    [SUM] does not, and [get_stats] ends in [OperationalError]. *)
Example sample_get_stats_integer_overflow :
  let d0 :=
    run [ (100, AddAccount "a@example.com" "pw" "REF" true None None);
          (200, AddAccount "b@example.com" "pw" "REF" true None None) ]
        init_database in
  let d1 := update_account_points 300 "a@example.com" (2 ^ 62) d0 in
  let d2 := update_account_points 400 "b@example.com" (2 ^ 62) d1 in
  AccountManager.update_account_points 300 "a@example.com" (2 ^ 62) d0
  = Returns (Some d1)
  /\ AccountManager.update_account_points 400 "b@example.com" (2 ^ 62) d1
     = Returns (Some d2)
  /\ get_stats d2 = Raises OperationalError.
Proof. repeat split; reflexivity. Qed.

Example sample_replace_gets_fresh_id :
  option_map Accounts.id
    (get_account_by_email "a@example.com"
       (exec 5000 (AddAccount "a@example.com" "pw" "REF1" false None None)
             sample_store)) = Some 5.
Proof. reflexivity. Qed.

Example sample_delete_account :
  let d := delete_account "a@example.com" sample_store in
  map Accounts.email (accounts d) =
  ["b@example.com"; "c@example.com"; "d@example.com"]
  /\ map TaskHistory.email (task_history d) = ["b@example.com"].
Proof. split; reflexivity. Qed.

(** ** Lookups through the statements *)

Section Lookup.
Implicit Types (e : string) (rows : list Accounts.row).

Lemma email_is_true e r : email_is e r = true <-> Accounts.email r = e.
Proof. unfold email_is. apply String.eqb_eq. Qed.

Lemma email_is_false e r : email_is e r = false <-> Accounts.email r <> e.
Proof. unfold email_is. apply String.eqb_neq. Qed.

Lemma email_is_other e e' r :
  e <> e' -> email_is e r = true -> email_is e' r = false.
Proof.
  intros Hne He. apply email_is_true in He. apply email_is_false.
  congruence.
Qed.

Lemma find_app_rows (p : Accounts.row -> bool) rows rows' :
  find p (rows ++ rows') =
  match find p rows with
  | Some r => Some r
  | None => find p rows'
  end.
Proof.
  induction rows as [|r rows IH]; simpl; [reflexivity|].
  destruct (p r); [reflexivity|exact IH].
Qed.

(** Deleting the rows of [e] leaves none to be found. *)
Lemma find_deleted e rows :
  find (email_is e) (filter (fun r => negb (email_is e r)) rows) = None.
Proof.
  induction rows as [|r rows IH]; simpl; [reflexivity|].
  destruct (email_is e r) eqn:He; simpl; [exact IH|].
  rewrite He. exact IH.
Qed.

(** Deleting the rows of [e'] does not disturb the lookup of another
    email. *)
Lemma find_deleted_other e e' rows :
  e <> e' ->
  find (email_is e) (filter (fun r => negb (email_is e' r)) rows) =
  find (email_is e) rows.
Proof.
  intros Hne. induction rows as [|r rows IH]; simpl; [reflexivity|].
  destruct (email_is e r) eqn:He.
  - rewrite (email_is_other e e' r Hne He). simpl. rewrite He. reflexivity.
  - destruct (email_is e' r); simpl; [exact IH|]. rewrite He. exact IH.
Qed.

(** An update keeps every email, so it commutes with the lookup. *)
Lemma find_updated e (f : Accounts.row -> Accounts.row) rows :
  (forall r, Accounts.email (f r) = Accounts.email r) ->
  find (email_is e) (map f rows) = option_map f (find (email_is e) rows).
Proof.
  intros Hf. induction rows as [|r rows IH]; simpl; [reflexivity|].
  unfold email_is at 1. rewrite Hf. fold (email_is e r).
  destruct (email_is e r); [reflexivity|exact IH].
Qed.

Lemma credit_if_email now n e r :
  Accounts.email (if email_is e r then credit now n r else r) =
  Accounts.email r.
Proof. destruct (email_is e r); reflexivity. Qed.

Lemma find_none_all e rows :
  find (email_is e) rows = None ->
  forall r, In r rows -> email_is e r = false.
Proof. intros Hnone. exact (find_none _ _ Hnone). Qed.
End Lookup.

(** ** What each method does to the row of an email *)

Section RowOfEmail.
Variables (now : timestamp) (d : db).
Implicit Types (e : string) (n : Z).

Lemma get_after_add e p rc v vc ck :
  get_account_by_email e (snd (add_account now e p rc v vc ck d)) =
  Some (inserted_row
          (next_rowid (map Accounts.id (accounts d)) (accounts_seq d))
          now e p rc v vc ck).
Proof.
  unfold get_account_by_email, add_account; simpl.
  rewrite find_app_rows, find_deleted; simpl.
  unfold email_is; simpl. rewrite String.eqb_refl. reflexivity.
Qed.

Lemma get_after_add_other e e' p rc v vc ck :
  e <> e' ->
  get_account_by_email e (snd (add_account now e' p rc v vc ck d)) =
  get_account_by_email e d.
Proof.
  intros Hne. unfold get_account_by_email, add_account; simpl.
  rewrite find_app_rows, (find_deleted_other e e' _ Hne).
  destruct (find (email_is e) (accounts d)); [reflexivity|]. simpl.
  unfold email_is; simpl.
  destruct (String.eqb_spec e' e); [congruence|reflexivity].
Qed.

Lemma get_after_update e n :
  get_account_by_email e (update_account_points now e n d) =
  option_map (credit now n) (get_account_by_email e d).
Proof.
  unfold get_account_by_email, update_account_points; simpl.
  rewrite find_updated by (intros r; apply credit_if_email).
  destruct (find (email_is e) (accounts d)) as [r|] eqn:Hfind;
    [|reflexivity].
  apply find_some in Hfind. destruct Hfind as [_ He].
  simpl. rewrite He. reflexivity.
Qed.

Lemma get_after_update_other e e' n :
  e <> e' ->
  get_account_by_email e (update_account_points now e' n d) =
  get_account_by_email e d.
Proof.
  intros Hne. unfold get_account_by_email, update_account_points; simpl.
  rewrite find_updated by (intros r; apply credit_if_email).
  destruct (find (email_is e) (accounts d)) as [r|] eqn:Hfind;
    [|reflexivity].
  apply find_some in Hfind. destruct Hfind as [_ He].
  simpl. rewrite (email_is_other e e' r Hne He). reflexivity.
Qed.

Lemma get_after_record e e' t xp dt :
  get_account_by_email e (record_task_completion now e' t xp dt d) =
  get_account_by_email e d.
Proof. reflexivity. Qed.

Lemma get_after_delete e :
  get_account_by_email e (delete_account e d) = None.
Proof. unfold get_account_by_email, delete_account; simpl. apply find_deleted. Qed.

Lemma get_after_delete_other e e' :
  e <> e' ->
  get_account_by_email e (delete_account e' d) = get_account_by_email e d.
Proof.
  intros Hne. unfold get_account_by_email, delete_account; simpl.
  apply find_deleted_other. exact Hne.
Qed.
End RowOfEmail.

(** ** C1: [add_account] on an existing email replaces the row *)

(** C1.  When [email] already has a row, [add_account] with that email
    leaves exactly one row for it, and that row holds the supplied
    [password], [referral_code], [verified], [verification_code] and
    [cookies], while [created_at], [points], [last_task_run], [status]
    and [notes] are at their schema defaults (the current time, 0,
    [NULL], ['active'], [NULL]) whatever the old row held.  In
    particular a further [add_account] that omits [cookies] leaves
    [cookies] null, whatever cookies the previous call stored. *)
Theorem add_account_replaces_row :
  forall (d : db) (email : string) (old : Accounts.row),
    get_account_by_email email d = Some old ->
    forall now password referral_code verified verification_code cookies,
      let d' := snd (add_account now email password referral_code verified
                                 verification_code cookies d) in
      let new_id :=
        next_rowid (map Accounts.id (accounts d)) (accounts_seq d) in
      fst (add_account now email password referral_code verified
                       verification_code cookies d) = true
      /\ get_account_by_email email d' =
         Some {| Accounts.id := new_id;
                 Accounts.email := email;
                 Accounts.password := password;
                 Accounts.referral_code := referral_code;
                 Accounts.created_at := now;
                 Accounts.verified := bind_bool verified;
                 Accounts.verification_code := verification_code;
                 Accounts.points := 0;
                 Accounts.last_task_run := None;
                 Accounts.status := "active";
                 Accounts.cookies := cookies;
                 Accounts.notes := None |}
      /\ List.length (filter (email_is email) (accounts d')) = 1%nat
      /\ (forall now2 password2 referral_code2 verified2 verification_code2,
            option_map Accounts.cookies
              (get_account_by_email email
                 (snd (add_account now2 email password2 referral_code2
                                   verified2 verification_code2 None d')))
            = Some None).
Proof.
  intros d email old _ now password referral_code verified
         verification_code cookies d' new_id.
  split; [reflexivity|]. split; [apply get_after_add|]. split.
  - unfold d', add_account; simpl.
    rewrite filter_app; simpl.
    replace (filter (email_is email)
               (filter (fun r => negb (email_is email r)) (accounts d)))
      with (@nil Accounts.row).
    + unfold email_is at 1; simpl. rewrite String.eqb_refl. reflexivity.
    + symmetry. induction (accounts d) as [|r rows IH]; simpl; [reflexivity|].
      destruct (email_is email r) eqn:He; simpl; [exact IH|].
      rewrite He. exact IH.
  - intros. rewrite get_after_add. reflexivity.
Qed.

Lemma add_account_replaces_row_witness :
  let d := snd (add_account 100 "a@example.com" "pw" "REF" false None
                            (Some "session=1") init_database) in
  exists old,
    get_account_by_email "a@example.com" d = Some old
    /\ option_map Accounts.cookies
         (get_account_by_email "a@example.com"
            (snd (add_account 200 "a@example.com" "pw2" "REF" true
                              (Some "123456") None d)))
       = Some None.
Proof.
  eexists. split; [reflexivity|].
  pose proof (add_account_replaces_row
                (snd (add_account 100 "a@example.com" "pw" "REF" false None
                                  (Some "session=1") init_database))
                "a@example.com" _ eq_refl
                200 "pw2" "REF" true (Some "123456") None) as H.
  destruct H as (_ & Hget & _ & _).
  rewrite Hget. reflexivity.
Defined.

(** ** A property of the row of one email, along a history *)

Section RowInvariant.
Variables (Q : Accounts.row -> Prop) (e : string).

Lemma exec_row_holds now c d :
  inserts e c = false ->
  (forall n r, c = UpdateAccountPoints e n -> Q r -> Q (credit now n r)) ->
  row_holds Q e d -> row_holds Q e (exec now c d).
Proof.
  intros Hins Hcredit. unfold row_holds.
  destruct c as [e' p rc v vc ck | e' n | e' t xp dt | e'];
    cbn [exec inserts] in *.
  - apply String.eqb_neq in Hins.
    rewrite get_after_add_other by congruence. trivial.
  - destruct (String.eqb_spec e' e) as [->|Hne].
    + rewrite get_after_update.
      destruct (get_account_by_email e d); simpl; [|trivial].
      apply Hcredit. reflexivity.
    + rewrite get_after_update_other by congruence. trivial.
  - rewrite get_after_record. trivial.
  - destruct (String.eqb_spec e' e) as [->|Hne].
    + rewrite get_after_delete. trivial.
    + rewrite get_after_delete_other by congruence. trivial.
Qed.

Lemma run_row_holds (ok : timestamp -> call -> Prop) :
  (forall now c d,
     ok now c -> row_holds Q e d -> row_holds Q e (exec now c d)) ->
  forall history d,
    Forall (fun tc => ok (fst tc) (snd tc)) history ->
    row_holds Q e d -> row_holds Q e (run history d).
Proof.
  intros Hstep history.
  induction history as [|[now c] history IH]; intros d Hok Hd; simpl.
  - exact Hd.
  - inversion Hok as [|? ? Hc Hrest]; subst. simpl in Hc.
    apply IH; [exact Hrest|]. apply Hstep; assumption.
Qed.
End RowInvariant.

(** ** The method around the [UPDATE] statement *)

Lemma in_int64_spec z : in_int64 z = true <-> int64_min <= z <= int64_max.
Proof. unfold in_int64. rewrite andb_true_iff, !Z.leb_le. reflexivity. Qed.

(** The [email] column is [UNIQUE]: the statement meets one row at
    most. *)
Lemma rows_of_email d e r :
  unique_emails d ->
  get_account_by_email e d = Some r ->
  filter (email_is e) (accounts d) = [r].
Proof.
  unfold unique_emails, get_account_by_email.
  induction (accounts d) as [|r0 rows IH]; simpl; intros Hu Hget;
    [discriminate|].
  inversion Hu as [|? ? Hnotin Hrest]; subst.
  destruct (email_is e r0) eqn:He.
  - injection Hget as ->. f_equal.
    apply email_is_true in He.
    clear IH Hu Hrest. induction rows as [|r1 rows IH]; [reflexivity|].
    simpl in *. destruct (email_is e r1) eqn:He1.
    + exfalso. apply Hnotin. left. apply email_is_true in He1. congruence.
    + apply IH. intros Hin. apply Hnotin. right. exact Hin.
  - apply IH; assumption.
Qed.

Lemma rows_of_missing_email d e :
  get_account_by_email e d = None ->
  filter (email_is e) (accounts d) = [].
Proof.
  unfold get_account_by_email. intros Hnone.
  pose proof (find_none_all e _ Hnone) as Hall. clear Hnone.
  induction (accounts d) as [|r rows IH]; simpl; [reflexivity|].
  rewrite (Hall r (or_introl eq_refl)).
  apply IH. intros r' Hin. apply Hall. right. exact Hin.
Qed.

Lemma update_account_points_no_row now e n d :
  get_account_by_email e d = None ->
  update_account_points now e n d = d.
Proof.
  destruct d as [rows seq hist hseq]. intros Hnone.
  unfold update_account_points, get_account_by_email in *; simpl in *.
  f_equal.
  pose proof (find_none_all e rows Hnone) as Hall. clear Hnone.
  induction rows as [|r rows IH]; simpl; [reflexivity|].
  rewrite (Hall r (or_introl eq_refl)).
  f_equal. apply IH. intros r' Hin. apply Hall. right. exact Hin.
Qed.




Lemma update_account_points_unbound now e n d :
  in_int64 n = false ->
  AccountManager.update_account_points now e n d = Raises OverflowError.
Proof.
  intros Hn. unfold AccountManager.update_account_points.
  rewrite Hn. reflexivity.
Qed.

Lemma update_account_points_in_range now e n d r :
  unique_emails d ->
  get_account_by_email e d = Some r ->
  in_int64 n = true ->
  AccountManager.update_account_points now e n d =
  if in_int64 (Accounts.points r + n)
  then Returns (Some (update_account_points now e n d))
  else Returns None.
Proof.
  intros Hu Hget Hn. unfold AccountManager.update_account_points.
  rewrite Hn, (rows_of_email d e r Hu Hget). simpl.
  rewrite andb_true_r. reflexivity.
Qed.

Lemma update_account_points_missing now e n d :
  get_account_by_email e d = None ->
  in_int64 n = true ->
  AccountManager.update_account_points now e n d = Returns (Some d).
Proof.
  intros Hnone Hn. unfold AccountManager.update_account_points.
  rewrite Hn, (rows_of_missing_email d e Hnone). simpl.
  rewrite update_account_points_no_row by exact Hnone. reflexivity.
Qed.

(** ** C2: [created_at] *)

(** C2, as stated, fails: a second [add_account] for the same email
    goes through [INSERT OR REPLACE], which inserts a fresh row whose
    [created_at] is the time of the second call. *)
Lemma created_at_reset_by_add_account :
  let d1 := exec 100 (AddAccount "a@example.com" "pw" "REF" false None None)
                 init_database in
  let d2 := exec 200 (AddAccount "a@example.com" "pw" "REF" false None None)
                 d1 in
  exists r1 r2,
    get_account_by_email "a@example.com" d1 = Some r1
    /\ get_account_by_email "a@example.com" d2 = Some r2
    /\ Accounts.created_at r1 = 100
    /\ Accounts.created_at r2 = 200
    /\ Accounts.created_at r2 <> Accounts.created_at r1.
Proof.
  do 2 eexists. repeat split; try reflexivity. simpl. discriminate.
Qed.

(** C2, amended.  [created_at] is set by every insert of the email: on
    every store, whether or not the email has a row there, an
    [add_account] call for the email leaves a row whose [created_at] is
    the time of that call.  Along any history that holds no
    [add_account] for that email, the row, as long as it exists, keeps
    its [created_at]. *)
Theorem created_at_kept_between_inserts :
  forall (e : string) (d : db),
    (forall now p rc v vc ck,
       option_map Accounts.created_at
         (get_account_by_email e (exec now (AddAccount e p rc v vc ck) d))
       = Some now)
    /\ (forall r history r',
          get_account_by_email e d = Some r ->
          Forall (fun tc => inserts e (snd tc) = false) history ->
          get_account_by_email e (run history d) = Some r' ->
          Accounts.created_at r' = Accounts.created_at r).
Proof.
  intros e d. split.
  - intros. cbn [exec]. rewrite get_after_add. reflexivity.
  - intros r history r' Hget Hok Hget'.
    set (Q := fun x => Accounts.created_at x = Accounts.created_at r).
    assert (Hend : row_holds Q e (run history d)).
    { apply (run_row_holds Q e (fun _ c => inserts e c = false));
        [|exact Hok|].
      - intros now c d0 Hc. apply exec_row_holds; [exact Hc|].
        intros n r0 _ Hr0. exact Hr0.
      - unfold row_holds. rewrite Hget. reflexivity. }
    unfold row_holds in Hend. rewrite Hget' in Hend. exact Hend.
Qed.

Lemma created_at_kept_between_inserts_witness :
  let d := exec 100 (AddAccount "a@example.com" "pw" "REF" true None None)
                init_database in
  let history :=
    [ (200, UpdateAccountPoints "a@example.com" 10);
      (300, AddAccount "b@example.com" "pw" "REF" false None None);
      (400, RecordTaskCompletion "a@example.com" "daily" 10 None);
      (500, DeleteAccount "b@example.com") ] in
  get_account_by_email "a@example.com" init_database = None
  /\ option_map Accounts.created_at
       (get_account_by_email "a@example.com" d) = Some 100
  /\ option_map Accounts.created_at
       (get_account_by_email "a@example.com" (run history d)) = Some 100.
Proof.
  intros d history. split; [reflexivity|]. split.
  - exact (proj1 (created_at_kept_between_inserts "a@example.com"
                    init_database)
                 100 "pw" "REF" true None None).
  - destruct (get_account_by_email "a@example.com" (run history d))
      as [r'|] eqn:Hget'; [|discriminate Hget'].
    simpl. f_equal.
    refine (proj2 (created_at_kept_between_inserts "a@example.com" d)
              _ history r' eq_refl _ Hget').
    repeat constructor.
Defined.

(** ** C3: [points] *)




(** ** C4: crediting points *)




(** ** C5: crediting an email that has no row *)

(** C5, as stated, fails: the call can raise.  The binding of
    [points_earned] comes before the statement and does not look at the
    table, so an argument that is no 64-bit integer raises
    [OverflowError] also when the email has no row. *)
Lemma credit_without_row_raises :
  get_account_by_email "nobody@example.com" init_database = None
  /\ AccountManager.update_account_points 100 "nobody@example.com" (2 ^ 63)
                                          init_database
     = Raises OverflowError.
Proof. split; reflexivity. Qed.

(** C5, amended.  [update_account_points] on an email without a row,
    with an argument that is a 64-bit integer, returns normally and
    leaves the store, every row of both tables and both counters, as it
    was.  With any other argument it raises [OverflowError]. *)
Theorem update_account_points_missing_email :
  forall (now : timestamp) (e : string) (n : Z) (d : db),
    get_account_by_email e d = None ->
    (in_int64 n = true ->
     AccountManager.update_account_points now e n d = Returns (Some d))
    /\ (in_int64 n = false ->
        AccountManager.update_account_points now e n d
        = Raises OverflowError).
Proof.
  intros now e n d Hnone. split; intros Hn.
  - apply update_account_points_missing; assumption.
  - apply update_account_points_unbound. exact Hn.
Qed.

Lemma update_account_points_missing_email_witness :
  let d := exec 100 (AddAccount "a@example.com" "pw" "REF" true None None)
                init_database in
  get_account_by_email "b@example.com" d = None
  /\ AccountManager.update_account_points 200 "b@example.com" 10 d
     = Returns (Some d).
Proof.
  intros d. split; [reflexivity|].
  apply (update_account_points_missing_email 200 "b@example.com" 10 d);
    reflexivity.
Defined.

(** ** C6: accounts due for tasks *)

(** The filter of [get_accounts_needing_tasks], for a window that is not
    negative, in words. *)
Lemma needs_tasks_iff now hours_since r :
  0 <= hours_since ->
  needs_tasks now hours_since r = true <->
  Accounts.verified r = 1
  /\ Accounts.status r = "active"
  /\ (Accounts.last_task_run r = None
      \/ exists t, Accounts.last_task_run r = Some t
                   /\ t < now - hours_since * 3600).
Proof.
  intros Hh. unfold needs_tasks, cutoff.
  destruct (Z.ltb_spec hours_since 0) as [Hneg|_]; [lia|].
  rewrite !andb_true_iff, Z.eqb_eq, String.eqb_eq.
  destruct (Accounts.last_task_run r) as [t|].
  - rewrite Z.ltb_lt. split.
    + intros [[Hv Hs] Ht]. repeat split; try assumption.
      right. exists t. split; [reflexivity|exact Ht].
    + intros (Hv & Hs & [Hnone | (t' & Ht' & Hlt)]); [discriminate|].
      injection Ht' as <-. repeat split; assumption.
  - split.
    + intros [[Hv Hs] _]. repeat split; try assumption. left. reflexivity.
    + intros (Hv & Hs & _). repeat split; assumption.
Qed.

(** C6.  [get_accounts_needing_tasks] with [hours_since = 20] returns
    exactly the rows that are verified, active, and whose
    [last_task_run] is unset or earlier than twenty hours before now.
    So, among verified active accounts, one that last ran 10 hours ago
    is left out, and one that last ran 21 hours ago, or never ran, is
    returned. *)
Theorem get_accounts_needing_tasks_20 :
  forall (now : timestamp) (d : db),
    (forall r,
       In r (get_accounts_needing_tasks now 20 d) <->
       In r (accounts d)
       /\ Accounts.verified r = 1
       /\ Accounts.status r = "active"
       /\ (Accounts.last_task_run r = None
           \/ exists t, Accounts.last_task_run r = Some t
                        /\ t < now - 20 * 3600))
    /\ (forall r,
          In r (accounts d) ->
          Accounts.verified r = 1 ->
          Accounts.status r = "active" ->
          (Accounts.last_task_run r = Some (now - 10 * 3600) ->
           ~ In r (get_accounts_needing_tasks now 20 d))
          /\ (Accounts.last_task_run r = Some (now - 21 * 3600) ->
              In r (get_accounts_needing_tasks now 20 d))
          /\ (Accounts.last_task_run r = None ->
              In r (get_accounts_needing_tasks now 20 d))).
Proof.
  intros now d.
  assert (Hiff : forall r,
             In r (get_accounts_needing_tasks now 20 d) <->
             In r (accounts d)
             /\ Accounts.verified r = 1
             /\ Accounts.status r = "active"
             /\ (Accounts.last_task_run r = None
                 \/ exists t, Accounts.last_task_run r = Some t
                              /\ t < now - 20 * 3600)).
  { intros r. unfold get_accounts_needing_tasks.
    rewrite filter_In, needs_tasks_iff by lia. reflexivity. }
  split; [exact Hiff|].
  intros r Hin Hv Hs. repeat split.
  - intros Hrun Hsel. apply Hiff in Hsel.
    destruct Hsel as (_ & _ & _ & [Hnone | (t & Ht & Hlt)]);
      rewrite Hrun in *; [discriminate|].
    injection Ht as <-. lia.
  - intros Hrun. apply Hiff. repeat split; try assumption.
    right. eexists. split; [exact Hrun|lia].
  - intros Hrun. apply Hiff. repeat split; try assumption.
    left. exact Hrun.
Qed.

Lemma get_accounts_needing_tasks_20_witness :
  let due := get_accounts_needing_tasks sample_now 20 sample_store in
  (exists r, get_account_by_email "a@example.com" sample_store = Some r
             /\ Accounts.last_task_run r = Some (sample_now - 10 * 3600)
             /\ ~ In r due)
  /\ (exists r, get_account_by_email "b@example.com" sample_store = Some r
                /\ Accounts.last_task_run r = Some (sample_now - 21 * 3600)
                /\ In r due)
  /\ (exists r, get_account_by_email "c@example.com" sample_store = Some r
                /\ Accounts.last_task_run r = None
                /\ In r due).
Proof.
  intros due.
  pose proof (proj2 (get_accounts_needing_tasks_20 sample_now sample_store))
    as Hcases.
  split; [|split]; eexists; (split; [reflexivity|]);
    (split; [reflexivity|]).
  - match goal with |- ~ In ?r _ =>
      refine (proj1 (Hcases r _ eq_refl eq_refl) eq_refl)
    end.
    simpl. tauto.
  - match goal with |- In ?r _ =>
      refine (proj1 (proj2 (Hcases r _ eq_refl eq_refl)) eq_refl)
    end.
    simpl. tauto.
  - match goal with |- In ?r _ =>
      refine (proj2 (proj2 (Hcases r _ eq_refl eq_refl)) eq_refl)
    end.
    simpl. tauto.
Defined.

(** ** C7: deleting an account *)

(** C7.  [delete_account] removes the rows of the email from [accounts]
    and from [task_history] and keeps every other row of either table.
    Afterwards the email has no account, other emails are looked up as
    before, and whatever [record_task_completion] had recorded for the
    email is no longer in the history. *)
Theorem delete_account_removes_account_and_history :
  forall (e : string) (d : db),
    let d' := delete_account e d in
    (forall r, In r (accounts d') <->
               In r (accounts d) /\ Accounts.email r <> e)
    /\ (forall h, In h (task_history d') <->
                  In h (task_history d) /\ TaskHistory.email h <> e)
    /\ get_account_by_email e d' = None
    /\ (forall e', e' <> e ->
                   get_account_by_email e' d' = get_account_by_email e' d)
    /\ (forall now t xp dt,
          task_history
            (delete_account e (record_task_completion now e t xp dt d))
          = task_history d').
Proof.
  intros e d d'. split; [|split; [|split; [|split]]].
  - intros r. unfold d', delete_account; simpl.
    rewrite filter_In, negb_true_iff, email_is_false. reflexivity.
  - intros h. unfold d', delete_account; simpl.
    rewrite filter_In, negb_true_iff, String.eqb_neq. reflexivity.
  - apply get_after_delete.
  - intros e' Hne. apply get_after_delete_other. exact Hne.
  - intros now t xp dt. unfold d', delete_account, record_task_completion.
    simpl. rewrite filter_app. simpl. rewrite String.eqb_refl. simpl.
    apply app_nil_r.
Qed.

Lemma delete_account_removes_account_and_history_witness :
  let d' := delete_account "a@example.com" sample_store in
  get_account_by_email "a@example.com" d' = None
  /\ get_account_by_email "b@example.com" d' =
     get_account_by_email "b@example.com" sample_store
  /\ (forall h, In h (task_history d') ->
                TaskHistory.email h <> "a@example.com").
Proof.
  intros d'.
  pose proof (delete_account_removes_account_and_history
                "a@example.com" sample_store)
    as (_ & Hhistory & Hgone & Hothers & _).
  split; [exact Hgone|]. split.
  - apply Hothers. discriminate.
  - intros h Hin. apply Hhistory in Hin. exact (proj2 Hin).
Defined.

(** ** C8: statistics never divide by zero *)

Lemma count_all (d : db) :
  count_where (fun _ => true) d = Z.of_nat (List.length (accounts d)).
Proof.
  unfold count_where. f_equal.
  induction (accounts d) as [|r rows IH]; simpl; [reflexivity|].
  f_equal. exact IH.
Qed.

Lemma count_where_bounds (p : Accounts.row -> bool) (d : db) :
  0 <= count_where p d <= Z.of_nat (List.length (accounts d)).
Proof.
  unfold count_where.
  pose proof (filter_length_le p (accounts d)). lia.
Qed.

(** A count divided by a total it does not exceed has a [float]. *)
Lemma truediv_fraction (a b : Z) :
  0 <= a <= b -> 0 < b ->
  truediv a b = Returns (nearest_quotient a b).
Proof.
  intros Ha Hb. unfold truediv.
  destruct (Z.eqb_spec b 0) as [Hzero|_]; [lia|].
  assert (Hlarge : 1 < 2 ^ 1024 - 2 ^ 970) by reflexivity.
  set (limit := 2 ^ 1024 - 2 ^ 970) in *. clearbody limit.
  destruct (Z.leb_spec (limit * Z.abs b) (Z.abs a)) as [Hover|_];
    [|reflexivity].
  rewrite !Z.abs_eq in Hover by lia. nia.
Qed.

(** [SUM] either yields the sum or fails on an overflow. *)
Lemma sum_from_returns (values : list Z) :
  forall acc total,
    sum_from acc values = Returns total ->
    total = acc + fold_right Z.add 0 values.
Proof.
  induction values as [|v values IH]; simpl; intros acc total Hsum.
  - injection Hsum as <-. lia.
  - destruct (in_int64 (acc + v)); [|discriminate].
    rewrite (IH _ _ Hsum). lia.
Qed.

Lemma sum_from_cases (values : list Z) :
  forall acc,
    (exists total, sum_from acc values = Returns total)
    \/ sum_from acc values = Raises OperationalError.
Proof.
  induction values as [|v values IH]; simpl; intros acc.
  - left. eexists. reflexivity.
  - destruct (in_int64 (acc + v)); [apply IH|right; reflexivity].
Qed.

Lemma sum_points_cases (d : db) :
  (exists sum, sum_points d = Returns sum)
  \/ sum_points d = Raises OperationalError.
Proof.
  unfold sum_points. destruct (accounts d) as [|r rows].
  - left. eexists. reflexivity.
  - destruct (sum_from_cases (map Accounts.points (r :: rows)) 0)
      as [[total ->] | ->].
    + left. eexists. reflexivity.
    + right. reflexivity.
Qed.

Lemma sum_points_returns (d : db) (sum : option Z) :
  sum_points d = Returns sum ->
  match sum with Some s => s | None => 0 end
  = fold_right Z.add 0 (map Accounts.points (accounts d)).
Proof.
  unfold sum_points. destruct (accounts d) as [|r rows].
  - intros H. injection H as <-. reflexivity.
  - destruct (sum_from 0 (map Accounts.points (r :: rows))) as [total|]
      eqn:Hsum; [|discriminate].
    intros H. injection H as <-.
    apply sum_from_returns in Hsum. lia.
Qed.

(** What [get_stats] returns when the [SUM] has a value: every field. *)
Lemma get_stats_returns (d : db) (sum : option Z) :
  sum_points d = Returns sum ->
  get_stats d =
  Returns
    {| total_accounts := Z.of_nat (List.length (accounts d));
       verified_accounts :=
         count_where (fun r => Accounts.verified r =? 1) d;
       pending_accounts :=
         count_where (fun r => Accounts.verified r =? 0) d;
       total_points := fold_right Z.add 0 (map Accounts.points (accounts d));
       verification_rate :=
         if 0 <? Z.of_nat (List.length (accounts d))
         then FloatValue
                (float_mul_int
                   (nearest_quotient
                      (count_where (fun r => Accounts.verified r =? 1) d)
                      (Z.of_nat (List.length (accounts d))))
                   100)
         else IntValue 0;
       referral_stats :=
         order_by (fun a b => snd b <=? snd a)
                  (group_by_referral_code (accounts d)) |}.
Proof.
  intros Hsum. unfold get_stats.
  rewrite Hsum, count_all. cbn [bind].
  rewrite (sum_points_returns d sum Hsum).
  destruct (Z.ltb_spec 0 (Z.of_nat (List.length (accounts d)))) as [Hpos|_];
    [|reflexivity].
  rewrite truediv_fraction; [reflexivity| |exact Hpos].
  apply count_where_bounds.
Qed.

(** [get_stats] returns, or fails on the [SUM]; it fails in no other
    way. *)
Lemma get_stats_cases (d : db) :
  (exists sum, sum_points d = Returns sum)
  /\ (exists s, get_stats d = Returns s)
  \/ sum_points d = Raises OperationalError
     /\ get_stats d = Raises OperationalError.
Proof.
  destruct (sum_points_cases d) as [[sum Hsum] | Hsum].
  - left. split; [exists sum; exact Hsum|].
    eexists. apply (get_stats_returns d sum Hsum).
  - right. split; [exact Hsum|]. unfold get_stats. rewrite Hsum. reflexivity.
Qed.



(** ** C9: the JSON export read back *)

(** Induction over Python values, through the lists, tuples and
    dictionaries they nest. *)
Lemma pyval_nested_ind (P : pyval -> Prop) :
  P PyNone ->
  (forall b, P (PyBool b)) ->
  (forall z, P (PyInt z)) ->
  (forall s, P (PyStr s)) ->
  (forall l, Forall P l -> P (PyList l)) ->
  (forall l, Forall P l -> P (PyTuple l)) ->
  (forall d, Forall (fun kv => P (snd kv)) d -> P (PyDict d)) ->
  forall v, P v.
Proof.
  intros HNone HBool HInt HStr HList HTuple HDict.
  fix IH 1. intros [| b | z | s | l | l | d].
  - exact HNone.
  - apply HBool.
  - apply HInt.
  - apply HStr.
  - apply HList.
    induction l as [|x l IHl]; constructor; [apply IH|exact IHl].
  - apply HTuple.
    induction l as [|x l IHl]; constructor; [apply IH|exact IHl].
  - apply HDict.
    induction d as [|[k x] d IHd]; constructor; [apply IH|exact IHd].
Qed.

(** Decoding what the encoder wrote gives the value back, provided it
    holds no tuple (a tuple comes back as a list). *)
Lemma json_load_dump (v : pyval) :
  tuple_free v = true -> json_load (json_dump v) = v.
Proof.
  induction v as [| b | z | s | l IHl | l _ | d IHd] using pyval_nested_ind;
    simpl; intros Hfree; try reflexivity; try discriminate; f_equal.
  - induction IHl as [|x l Hx _ IH]; simpl in *; [reflexivity|].
    apply andb_true_iff in Hfree. destruct Hfree as [Hfx Hfl].
    rewrite Hx, IH by assumption. reflexivity.
  - induction IHd as [|[k x] d Hx _ IH]; simpl in *; [reflexivity|].
    apply andb_true_iff in Hfree. destruct Hfree as [Hfx Hfl].
    rewrite Hx, IH by assumption. reflexivity.
Qed.

Lemma json_load_dump_tuple :
  json_load (json_dump (PyTuple [PyInt 1])) = PyList [PyInt 1].
Proof. reflexivity. Qed.

(** The dictionary of a row holds scalars only. *)
Lemma dict_of_row_tuple_free sqlite_text r :
  tuple_free (PyDict (dict_of_row sqlite_text r)) = true.
Proof.
  unfold dict_of_row, text_or_none. simpl.
  destruct (Accounts.verification_code r), (Accounts.last_task_run r),
    (Accounts.cookies r), (Accounts.notes r); reflexivity.
Qed.

Lemma listed_accounts_tuple_free sqlite_text d :
  forallb tuple_free (listed_accounts sqlite_text d) = true.
Proof.
  unfold listed_accounts. apply forallb_forall. intros v Hin.
  apply in_map_iff in Hin. destruct Hin as (r & <- & _).
  apply dict_of_row_tuple_free.
Qed.

Lemma insert_row_length {A : Type} (le : A -> A -> bool) x l :
  List.length (insert_row le x l) = S (List.length l).
Proof.
  induction l as [|y l IH]; simpl; [reflexivity|].
  destruct (le x y); simpl; [reflexivity|]. rewrite IH. reflexivity.
Qed.

Lemma order_by_length {A : Type} (le : A -> A -> bool) l :
  List.length (order_by le l) = List.length l.
Proof.
  unfold order_by.
  induction l as [|x l IH]; simpl; [reflexivity|].
  rewrite insert_row_length, IH. reflexivity.
Qed.

(** C9.  Reading back the document [export_to_json] wrote gives, under
    ["accounts"], the list of dictionaries that [get_all_accounts]
    returns on the exported store: as many entries, one per account of
    the store, each with the same keys and values in the same position;
    and under ["total_accounts"] the number of those entries. *)
Theorem export_to_json_round_trip :
  forall (sqlite_text : timestamp -> string) (exported_at : string) (d : db),
    let document := json_load (export_to_json sqlite_text exported_at d) in
    let listed := listed_accounts sqlite_text d in
    getitem "accounts" document = Some (PyList listed)
    /\ getitem "total_accounts" document =
       Some (PyInt (Z.of_nat (List.length listed)))
    /\ getitem "exported_at" document = Some (PyStr exported_at)
    /\ List.length listed = List.length (accounts d)
    /\ (forall i r,
          nth_error (get_all_accounts d) i = Some r ->
          nth_error listed i = Some (PyDict (dict_of_row sqlite_text r))).
Proof.
  intros sqlite_text exported_at d document listed.
  assert (Hdoc : document =
                 PyDict [ ("exported_at", PyStr exported_at);
                          ("total_accounts",
                            PyInt (Z.of_nat (List.length listed)));
                          ("accounts", PyList listed) ]).
  { unfold document, export_to_json. apply json_load_dump.
    cbn [tuple_free forallb snd]. unfold listed.
    rewrite listed_accounts_tuple_free. reflexivity. }
  rewrite Hdoc. repeat split.
  - unfold listed, listed_accounts, get_all_accounts.
    rewrite length_map. apply order_by_length.
  - intros i r Hnth. unfold listed, listed_accounts.
    rewrite nth_error_map, Hnth. reflexivity.
Qed.

(** ** C10: verified and pending accounts partition the store *)

Lemma exec_verified_is_boolean now c d :
  verified_is_boolean d -> verified_is_boolean (exec now c d).
Proof.
  unfold verified_is_boolean. rewrite !Forall_forall. intros Hd.
  destruct c as [e p rc v vc ck | e n | e t xp dt | e]; simpl; intros r Hin.
  - apply in_app_or in Hin. destruct Hin as [Hin | [<- | []]].
    + apply filter_In in Hin. apply Hd. tauto.
    + simpl. destruct v; simpl; tauto.
  - apply in_map_iff in Hin. destruct Hin as (r0 & <- & Hin).
    destruct (email_is e r0); simpl; apply Hd; exact Hin.
  - apply Hd. exact Hin.
  - apply filter_In in Hin. apply Hd. tauto.
Qed.

Lemma run_verified_is_boolean history :
  forall d, verified_is_boolean d -> verified_is_boolean (run history d).
Proof.
  induction history as [|[now c] history IH]; intros d Hd; simpl.
  - exact Hd.
  - apply IH, exec_verified_is_boolean, Hd.
Qed.

Lemma count_partition (rows : list Accounts.row) :
  Forall (fun r => Accounts.verified r = 0 \/ Accounts.verified r = 1) rows ->
  Nat.add (List.length (filter (fun r => Accounts.verified r =? 1) rows))
          (List.length (filter (fun r => Accounts.verified r =? 0) rows))
  = List.length rows.
Proof.
  induction 1 as [|r rows [Hr | Hr] _ IH]; simpl; [reflexivity| |];
    rewrite Hr; simpl; lia.
Qed.

(** C10.  In every store reached from a fresh database by a history of
    calls, each row's [verified] column is 0 or 1.  Hence the counts
    that [get_stats] reports partition the accounts: [total_accounts] is
    the number of rows, [verified_accounts] the number of rows with
    [verified = 1], [pending_accounts] the number of rows with
    [verified = 0], and [verified_accounts + pending_accounts =
    total_accounts].  [get_stats] reports them whenever the [SUM] of the
    points has a value. *)
Theorem get_stats_counts_partition :
  forall history : list (timestamp * call),
    let d := run history init_database in
    verified_is_boolean d
    /\ (forall sum, sum_points d = Returns sum ->
                    exists s, get_stats d = Returns s)
    /\ (forall s,
          get_stats d = Returns s ->
          total_accounts s = Z.of_nat (List.length (accounts d))
          /\ verified_accounts s =
             Z.of_nat
               (List.length
                  (filter (fun r => Accounts.verified r =? 1) (accounts d)))
          /\ pending_accounts s =
             Z.of_nat
               (List.length
                  (filter (fun r => Accounts.verified r =? 0) (accounts d)))
          /\ verified_accounts s + pending_accounts s = total_accounts s).
Proof.
  intros history d.
  assert (Hbool : verified_is_boolean d).
  { apply run_verified_is_boolean. constructor. }
  split; [exact Hbool|]. split.
  - intros sum Hsum. eexists. apply (get_stats_returns d sum Hsum).
  - intros s Hs.
    destruct (get_stats_cases d) as [[[sum Hsum] _] | [_ Hraise]];
      [|congruence].
    rewrite (get_stats_returns d sum Hsum) in Hs. injection Hs as <-.
    cbn [total_accounts verified_accounts pending_accounts].
    unfold count_where. repeat split.
    rewrite <- Nat2Z.inj_add. f_equal. apply count_partition. exact Hbool.
Qed.

Lemma get_stats_counts_partition_witness :
  exists s,
    get_stats sample_store = Returns s
    /\ total_accounts s = 4
    /\ verified_accounts s = 3
    /\ pending_accounts s = 1.
Proof.
  destruct (get_stats_counts_partition sample_history)
    as (_ & Hreturns & Hfields).
  destruct (Hreturns (Some 40) eq_refl) as [s Hs].
  exists s. split; [exact Hs|].
  destruct (Hfields s Hs) as (Htotal & Hverified & Hpending & _).
  split; [exact Htotal|]. split; [exact Hverified|exact Hpending].
Defined.

(** * Further properties of the store *)

(** ** Sorting *)

Section OrderByFacts.
Context {A : Type} (le : A -> A -> bool).

Lemma insert_row_perm x l : Permutation (insert_row le x l) (x :: l).
Proof.
  induction l as [|y l IH]; simpl; [reflexivity|].
  destruct (le x y); [reflexivity|].
  rewrite IH. apply perm_swap.
Qed.

Lemma order_by_perm l : Permutation (order_by le l) l.
Proof.
  unfold order_by. induction l as [|x l IH]; simpl; [reflexivity|].
  rewrite insert_row_perm. constructor. exact IH.
Qed.

Hypothesis le_total : forall a b, le a b = true \/ le b a = true.
Hypothesis le_trans :
  forall a b c, le a b = true -> le b c = true -> le a c = true.

Lemma insert_row_sorted x l :
  StronglySorted (fun a b => le a b = true) l ->
  StronglySorted (fun a b => le a b = true) (insert_row le x l).
Proof.
  induction 1 as [|y l Hsorted IH Hy]; simpl.
  - repeat constructor.
  - destruct (le x y) eqn:Hxy.
    + constructor; [constructor; assumption|].
      constructor; [exact Hxy|].
      rewrite Forall_forall in *. intros z Hz.
      apply (le_trans x y z Hxy). apply Hy. exact Hz.
    + constructor; [exact IH|].
      rewrite Forall_forall in *. intros z Hz.
      apply (Permutation_in _ (insert_row_perm x l)) in Hz.
      destruct Hz as [<- | Hz]; [|apply Hy; exact Hz].
      destruct (le_total x y) as [H | H]; [congruence|exact H].
Qed.

Lemma order_by_sorted l :
  StronglySorted (fun a b => le a b = true) (order_by le l).
Proof.
  unfold order_by. induction l as [|x l IH]; simpl; [constructor|].
  apply insert_row_sorted. exact IH.
Qed.
End OrderByFacts.

Lemma StronglySorted_impl {A : Type} (R R' : A -> A -> Prop) l :
  (forall a b, R a b -> R' a b) ->
  StronglySorted R l -> StronglySorted R' l.
Proof.
  intros Himpl. induction 1 as [|a l _ IH Ha]; constructor; [exact IH|].
  rewrite Forall_forall in *. intros b Hb. apply Himpl, Ha, Hb.
Qed.

(** X1.  [get_all_accounts] returns every row of the table exactly
    once, and no row comes before one that was created later. *)
Theorem get_all_accounts_newest_first :
  forall d : db,
    Permutation (get_all_accounts d) (accounts d)
    /\ StronglySorted
         (fun a b => Accounts.created_at b <= Accounts.created_at a)
         (get_all_accounts d).
Proof.
  intros d. unfold get_all_accounts. split; [apply order_by_perm|].
  eapply StronglySorted_impl; [|apply order_by_sorted].
  - intros a b Hab. apply Z.leb_le. exact Hab.
  - intros a b. destruct (Z.leb_spec (Accounts.created_at b)
                                     (Accounts.created_at a));
      destruct (Z.leb_spec (Accounts.created_at a)
                           (Accounts.created_at b)); auto; lia.
  - intros a b c Hab Hbc. apply Z.leb_le in Hab, Hbc. apply Z.leb_le. lia.
Qed.

(** ** Invariants of the accounts table *)

Lemma emails_after_credit now e n rows :
  map Accounts.email
      (map (fun r => if email_is e r then credit now n r else r) rows)
  = map Accounts.email rows.
Proof.
  rewrite map_map. apply map_ext. intros r. apply credit_if_email.
Qed.

Lemma NoDup_emails_filter (p : Accounts.row -> bool) rows :
  NoDup (map Accounts.email rows) ->
  NoDup (map Accounts.email (filter p rows)).
Proof.
  induction rows as [|r rows IH]; simpl; intros Hnd; [constructor|].
  inversion Hnd as [|? ? Hnotin Hrest]; subst.
  destruct (p r); simpl; [|apply IH; exact Hrest].
  constructor; [|apply IH; exact Hrest].
  intros Hin. apply Hnotin. apply in_map_iff in Hin.
  destruct Hin as (r' & He & Hin). apply filter_In in Hin.
  apply in_map_iff. exists r'. tauto.
Qed.

Lemma exec_unique_emails now c d :
  unique_emails d -> unique_emails (exec now c d).
Proof.
  unfold unique_emails. intros Hd.
  destruct c as [e p rc v vc ck | e n | e t xp dt | e]; simpl.
  - rewrite map_app. apply NoDup_app.
    + apply NoDup_emails_filter. exact Hd.
    + simpl. repeat constructor. intros [].
    + intros a Hin [<- | []]. simpl in Hin.
      apply in_map_iff in Hin. destruct Hin as (r & He & Hin).
      apply filter_In in Hin. destruct Hin as [_ Hneg].
      apply negb_true_iff, email_is_false in Hneg. congruence.
  - rewrite emails_after_credit. exact Hd.
  - exact Hd.
  - apply NoDup_emails_filter. exact Hd.
Qed.

Lemma run_invariant (P : db -> Prop) :
  (forall now c d, P d -> P (exec now c d)) ->
  forall history d, P d -> P (run history d).
Proof.
  intros Hstep history.
  induction history as [|[now c] history IH]; intros d Hd; simpl.
  - exact Hd.
  - apply IH, Hstep, Hd.
Qed.

(** X2.  In every store reached from a fresh database no two rows share
    an email, so the row [get_account_by_email] returns is the only row
    of that email. *)
Theorem emails_stay_unique :
  forall (history : list (timestamp * call)) (e : string),
    let d := run history init_database in
    unique_emails d
    /\ (forall r, In r (accounts d) -> Accounts.email r = e ->
                  get_account_by_email e d = Some r).
Proof.
  intros history e d.
  assert (Hu : unique_emails d).
  { apply run_invariant; [apply exec_unique_emails|constructor]. }
  split; [exact Hu|].
  unfold unique_emails, get_account_by_email in *.
  induction (accounts d) as [|r0 rows IH]; intros r Hin He; [destruct Hin|].
  simpl in *. inversion Hu as [|? ? Hnotin Hrest]; subst.
  destruct Hin as [-> | Hin].
  - unfold email_is. rewrite String.eqb_refl. reflexivity.
  - destruct (email_is (Accounts.email r) r0) eqn:H0.
    + exfalso. apply Hnotin. apply email_is_true in H0. rewrite H0.
      apply in_map. exact Hin.
    + apply IH; auto.
Qed.

Lemma ids_after_credit now e n rows :
  map Accounts.id
      (map (fun r => if email_is e r then credit now n r else r) rows)
  = map Accounts.id rows.
Proof.
  rewrite map_map. apply map_ext. intros r.
  destruct (email_is e r); reflexivity.
Qed.

Lemma sorted_ids_filter (p : Accounts.row -> bool) rows :
  StronglySorted Z.lt (map Accounts.id rows) ->
  StronglySorted Z.lt (map Accounts.id (filter p rows)).
Proof.
  induction rows as [|r rows IH]; simpl; intros Hs; [constructor|].
  apply StronglySorted_inv in Hs. destruct Hs as [Hs Hr].
  destruct (p r); simpl; [|apply IH; exact Hs].
  constructor; [apply IH; exact Hs|].
  rewrite Forall_forall in *. intros i Hi. apply Hr.
  apply in_map_iff in Hi. destruct Hi as (r' & <- & Hin).
  apply filter_In in Hin. apply in_map. tauto.
Qed.

Lemma sorted_ids_append ids i :
  StronglySorted Z.lt ids -> Forall (fun j => j < i) ids ->
  StronglySorted Z.lt (ids ++ [i]).
Proof.
  induction 1 as [|j ids Hs IH Hj]; intros Hlt; simpl.
  - repeat constructor.
  - inversion Hlt; subst. constructor; [apply IH; assumption|].
    apply Forall_app. split; [exact Hj|]. repeat constructor. assumption.
Qed.

Lemma next_rowid_in_sequence ids seq :
  Forall (fun i => 0 < i <= seq) ids -> next_rowid ids seq = seq + 1.
Proof.
  unfold next_rowid. intros Hids. f_equal.
  induction Hids as [|i ids Hi _ IH]; simpl; [reflexivity|].
  rewrite IH. lia.
Qed.

Lemma next_rowid_above_sequence ids seq : seq < next_rowid ids seq.
Proof.
  unfold next_rowid.
  induction ids as [|i ids IH]; simpl; lia.
Qed.

Lemma exec_ids_in_sequence now c d :
  ids_in_sequence d -> ids_in_sequence (exec now c d).
Proof.
  unfold ids_in_sequence. intros (Hseq & Hsorted & Hbound).
  assert (Hfilter : forall p,
             Forall (fun i => 0 < i <= accounts_seq d)
                    (map Accounts.id (filter p (accounts d)))).
  { intros p. rewrite Forall_forall in *. intros i Hi. apply Hbound.
    apply in_map_iff in Hi. destruct Hi as (r & <- & Hin).
    apply filter_In in Hin. apply in_map. tauto. }
  destruct c as [e p rc v vc ck | e n | e t xp dt | e]; simpl.
  - rewrite (next_rowid_in_sequence _ _ Hbound).
    rewrite map_app. simpl. split; [lia|]. split.
    + apply sorted_ids_append; [apply sorted_ids_filter; exact Hsorted|].
      eapply Forall_impl; [|apply Hfilter]. simpl. intros; lia.
    + apply Forall_app. split.
      * eapply Forall_impl; [|apply Hfilter]. simpl. intros; lia.
      * repeat constructor; lia.
  - rewrite ids_after_credit. repeat split; assumption.
  - repeat split; assumption.
  - split; [exact Hseq|]. split; [apply sorted_ids_filter; exact Hsorted|].
    apply Hfilter.
Qed.

Lemma exec_sequence_grows now c d :
  accounts_seq d <= accounts_seq (exec now c d).
Proof.
  destruct c; simpl; try lia.
  pose proof (next_rowid_above_sequence
                (map Accounts.id (accounts d)) (accounts_seq d)).
  lia.
Qed.

(** X3.  In every store reached from a fresh database the ids are
    positive and grow along the table, and the [sqlite_sequence]
    counter bounds them.  No call lowers the counter, and [add_account]
    gives its row the id one above the counter: an id, once given, is
    never given again, also when its row has been deleted or
    replaced. *)
Theorem ids_never_reused :
  forall history : list (timestamp * call),
    let d := run history init_database in
    ids_in_sequence d
    /\ (forall now c, accounts_seq d <= accounts_seq (exec now c d))
    /\ (forall now e p rc v vc ck,
          let d' := exec now (AddAccount e p rc v vc ck) d in
          option_map Accounts.id (get_account_by_email e d')
          = Some (accounts_seq d + 1)
          /\ accounts_seq d' = accounts_seq d + 1).
Proof.
  intros history d.
  assert (Hids : ids_in_sequence d).
  { apply run_invariant; [apply exec_ids_in_sequence|].
    unfold ids_in_sequence; simpl. repeat constructor. lia. }
  split; [exact Hids|]. split; [intros; apply exec_sequence_grows|].
  intros now e p rc v vc ck d'. destruct Hids as (_ & _ & Hbound).
  unfold d'. cbn [exec]. rewrite get_after_add. simpl.
  rewrite (next_rowid_in_sequence _ _ Hbound). split; reflexivity.
Qed.

Lemma exec_defaults_kept now c d :
  defaults_kept d -> defaults_kept (exec now c d).
Proof.
  unfold defaults_kept. rewrite !Forall_forall. intros Hd.
  destruct c as [e p rc v vc ck | e n | e t xp dt | e]; simpl; intros r Hin.
  - apply in_app_or in Hin. destruct Hin as [Hin | [<- | []]].
    + apply filter_In in Hin. apply Hd. tauto.
    + simpl. split; reflexivity.
  - apply in_map_iff in Hin. destruct Hin as (r0 & <- & Hin).
    destruct (email_is e r0); simpl; apply Hd; exact Hin.
  - apply Hd. exact Hin.
  - apply filter_In in Hin. apply Hd. tauto.
Qed.

(** X4.  No method writes [status] or [notes]: in every store reached
    from a fresh database each row has [status = 'active'] and [notes]
    null.  So [get_verified_accounts] returns exactly the rows with
    [verified = 1], and every account is returned by exactly one of
    [get_verified_accounts] and [get_pending_accounts]. *)
Theorem status_and_notes_keep_defaults :
  forall history : list (timestamp * call),
    let d := run history init_database in
    defaults_kept d
    /\ get_verified_accounts d =
       filter (fun r => Accounts.verified r =? 1) (accounts d)
    /\ Nat.add (List.length (get_verified_accounts d))
               (List.length (get_pending_accounts d))
       = List.length (accounts d)
    /\ (forall r, In r (get_verified_accounts d) ->
                  ~ In r (get_pending_accounts d)).
Proof.
  intros history d.
  assert (Hdef : defaults_kept d).
  { apply run_invariant; [apply exec_defaults_kept|constructor]. }
  assert (Hver : get_verified_accounts d =
                 filter (fun r => Accounts.verified r =? 1) (accounts d)).
  { unfold get_verified_accounts. apply filter_ext_in. intros r Hin.
    unfold defaults_kept in Hdef. rewrite Forall_forall in Hdef.
    destruct (Hdef r Hin) as [-> _]. simpl. apply andb_true_r. }
  split; [exact Hdef|]. split; [exact Hver|]. split.
  - rewrite Hver. unfold get_pending_accounts. apply count_partition.
    apply run_verified_is_boolean. constructor.
  - intros r Hin Hpending. rewrite Hver in Hin.
    apply filter_In in Hin. apply filter_In in Hpending.
    destruct Hin as [_ H1]. destruct Hpending as [_ H0].
    apply Z.eqb_eq in H1, H0. lia.
Qed.

(** ** Calls about one email leave the others alone *)

(** X5.  A call leaves the account of every other email as it was: the
    rows of emails the call does not name are the same before and
    after, and so is their lookup.  [record_task_completion] leaves the
    whole accounts table as it was, the named email included. *)
Theorem other_emails_untouched :
  forall (now : timestamp) (c : call) (d : db),
    (forall e, e <> call_email c ->
               get_account_by_email e (exec now c d) =
               get_account_by_email e d)
    /\ (forall r, Accounts.email r <> call_email c ->
                  (In r (accounts (exec now c d)) <-> In r (accounts d)))
    /\ (is_record c = true -> accounts (exec now c d) = accounts d).
Proof.
  intros now c d. split; [|split].
  - intros e Hne.
    destruct c as [e' p rc v vc ck | e' n | e' t xp dt | e'];
      cbn [exec call_email] in *.
    + apply get_after_add_other. exact Hne.
    + apply get_after_update_other. exact Hne.
    + apply get_after_record.
    + apply get_after_delete_other. exact Hne.
  - intros r Hne.
    destruct c as [e' p rc v vc ck | e' n | e' t xp dt | e'];
      simpl in *.
    + rewrite in_app_iff, filter_In, negb_true_iff, email_is_false. simpl.
      split; [intros [[H _] | [<- | []]]; [exact H|]|tauto].
      simpl in Hne. congruence.
    + rewrite in_map_iff. split.
      * intros (r0 & Hr & Hin). destruct (email_is e' r0) eqn:He.
        -- apply email_is_true in He. subst r. simpl in Hne. congruence.
        -- subst r0. exact Hin.
      * intros Hin. exists r. split; [|exact Hin].
        apply email_is_false in Hne. rewrite Hne. reflexivity.
    + reflexivity.
    + rewrite filter_In, negb_true_iff, email_is_false. tauto.
  - destruct c; simpl; try discriminate. reflexivity.
Qed.

(** ** Counting rows *)

Lemma length_without_email e rows :
  NoDup (map Accounts.email rows) ->
  List.length rows =
  match find (email_is e) rows with
  | Some _ => S (List.length (filter (fun r => negb (email_is e r)) rows))
  | None => List.length (filter (fun r => negb (email_is e r)) rows)
  end.
Proof.
  induction rows as [|r rows IH]; simpl; intros Hnd; [reflexivity|].
  inversion Hnd as [|? ? Hnotin Hrest]; subst.
  destruct (email_is e r) eqn:He; simpl.
  - f_equal. symmetry. f_equal. apply forallb_filter_id.
    apply forallb_forall. intros r' Hin. apply negb_true_iff, email_is_false.
    apply email_is_true in He. intros He'. apply Hnotin.
    rewrite He, <- He'. apply in_map. exact Hin.
  - rewrite (IH Hrest).
    destruct (find (email_is e) rows); reflexivity.
Qed.

(** X6.  In every store reached from a fresh database, [add_account]
    adds one row when the email is new and keeps the number of rows
    when the email already has one. *)
Theorem add_account_row_count :
  forall (history : list (timestamp * call)) now e p rc v vc ck,
    let d := run history init_database in
    List.length (accounts (snd (add_account now e p rc v vc ck d))) =
    match get_account_by_email e d with
    | Some _ => List.length (accounts d)
    | None => S (List.length (accounts d))
    end.
Proof.
  intros history now e p rc v vc ck d.
  assert (Hu : unique_emails d).
  { apply run_invariant; [apply exec_unique_emails|constructor]. }
  unfold add_account, get_account_by_email. simpl.
  rewrite length_app. simpl.
  rewrite (length_without_email e (accounts d) Hu).
  destruct (find (email_is e) (accounts d)); lia.
Qed.

Lemma filter_twice {A : Type} (p : A -> bool) l :
  filter p (filter p l) = filter p l.
Proof.
  apply forallb_filter_id. apply forallb_forall.
  intros x Hin. apply filter_In in Hin. tauto.
Qed.

(** X7.  [delete_account] on an email that has neither an account nor
    history entries leaves the store as it was, and deleting an email a
    second time changes nothing more. *)
Theorem delete_account_missing_email :
  forall (e : string) (d : db),
    delete_account e (delete_account e d) = delete_account e d
    /\ (get_account_by_email e d = None ->
        (forall h, In h (task_history d) -> TaskHistory.email h <> e) ->
        delete_account e d = d).
Proof.
  intros e d. split.
  - unfold delete_account; simpl. rewrite !filter_twice. reflexivity.
  - intros Hnone Hhist. destruct d as [rows seq hist hseq].
    unfold delete_account, get_account_by_email in *; simpl in *.
    f_equal; apply forallb_filter_id, forallb_forall.
    + intros r Hin. apply negb_true_iff.
      apply (find_none_all e rows Hnone r Hin).
    + intros h Hin. apply negb_true_iff, String.eqb_neq, Hhist, Hin.
Qed.

Lemma delete_account_missing_email_witness :
  delete_account "z@example.com" sample_store = sample_store.
Proof.
  apply (proj2 (delete_account_missing_email "z@example.com" sample_store)).
  - reflexivity.
  - simpl. intros h [<- | [<- | []]]; discriminate.
Defined.

(** ** The due list *)

(** X8.  Whatever the window, [get_accounts_needing_tasks] returns only
    rows that [get_verified_accounts] returns too.  For windows that
    are not negative, a longer window returns no more rows, and a later
    clock reading returns no fewer. *)
Theorem due_list_monotone :
  forall (d : db),
    (forall now h r,
       In r (get_accounts_needing_tasks now h d) ->
       In r (get_verified_accounts d))
    /\ (forall now h1 h2 r,
          0 <= h1 <= h2 ->
          In r (get_accounts_needing_tasks now h2 d) ->
          In r (get_accounts_needing_tasks now h1 d))
    /\ (forall now1 now2 h r,
          0 <= h -> now1 <= now2 ->
          In r (get_accounts_needing_tasks now1 h d) ->
          In r (get_accounts_needing_tasks now2 h d)).
Proof.
  intros d. unfold get_accounts_needing_tasks, get_verified_accounts.
  split; [|split].
  - intros now h r Hin. apply filter_In in Hin. apply filter_In.
    destruct Hin as [Hin Hneeds]. split; [exact Hin|].
    unfold needs_tasks in Hneeds. apply andb_true_iff in Hneeds. tauto.
  - intros now h1 h2 r Hh Hin. apply filter_In in Hin. apply filter_In.
    destruct Hin as [Hin Hneeds]. split; [exact Hin|].
    apply needs_tasks_iff in Hneeds; [|lia]. apply needs_tasks_iff; [lia|].
    destruct Hneeds as (Hv & Hs & [Hnone | (t & Ht & Hlt)]);
      repeat split; try assumption; [left; assumption|].
    right. exists t. split; [exact Ht|nia].
  - intros now1 now2 h r Hh Hnow Hin. apply filter_In in Hin.
    apply filter_In. destruct Hin as [Hin Hneeds]. split; [exact Hin|].
    apply needs_tasks_iff in Hneeds; [|lia]. apply needs_tasks_iff; [lia|].
    destruct Hneeds as (Hv & Hs & [Hnone | (t & Ht & Hlt)]);
      repeat split; try assumption; [left; assumption|].
    right. exists t. split; [exact Ht|lia].
Qed.

(** X9.  After [update_account_points] at time [t], a row of the
    credited email is on the due list for a window of [h] hours exactly
    when it is verified and active and more than [h] hours have passed
    since [t].  In particular the account is off the list throughout
    the window that follows the credit. *)
Theorem credited_account_due_after_window :
  forall (t : timestamp) (e : string) (n : Z) (d : db) (now h : Z),
    0 <= h ->
    forall r,
      In r (accounts (update_account_points t e n d)) ->
      Accounts.email r = e ->
      (In r (get_accounts_needing_tasks now h
               (update_account_points t e n d))
       <-> Accounts.verified r = 1
           /\ Accounts.status r = "active"
           /\ t < now - h * 3600).
Proof.
  intros t e n d now h Hh r Hin He.
  assert (Hrun : Accounts.last_task_run r = Some t).
  { unfold update_account_points in Hin; simpl in Hin.
    apply in_map_iff in Hin. destruct Hin as (r0 & <- & _).
    destruct (email_is e r0) eqn:H0; [reflexivity|].
    apply email_is_false in H0. contradiction. }
  unfold get_accounts_needing_tasks.
  rewrite filter_In, needs_tasks_iff by exact Hh. rewrite Hrun. split.
  - intros (_ & Hv & Hs & [Hnone | (t' & Ht' & Hlt)]); [discriminate|].
    injection Ht' as <-. tauto.
  - intros (Hv & Hs & Hlt). repeat split; try assumption.
    right. exists t. tauto.
Qed.

Lemma credited_account_due_after_window_witness :
  let d := update_account_points 50000 "c@example.com" 7 sample_store in
  exists r,
    get_account_by_email "c@example.com" d = Some r
    /\ ~ In r (get_accounts_needing_tasks sample_now 20 d)
    /\ In r (get_accounts_needing_tasks (sample_now + 24 * 3600) 20 d).
Proof.
  intros d. eexists. split; [reflexivity|].
  match goal with |- ~ In ?r _ /\ _ =>
    assert (Hin : In r (accounts d)) by (simpl; tauto);
    pose proof (credited_account_due_after_window
                  50000 "c@example.com" 7 sample_store sample_now 20
                  ltac:(lia) r Hin eq_refl) as Hnow;
    pose proof (credited_account_due_after_window
                  50000 "c@example.com" 7 sample_store
                  (sample_now + 24 * 3600) 20
                  ltac:(lia) r Hin eq_refl) as Hlater
  end.
  split.
  - intros Hdue. apply Hnow in Hdue. unfold sample_now in Hdue. lia.
  - apply Hlater. split; [reflexivity|]. split; [reflexivity|].
    unfold sample_now. lia.
Defined.

(** ** More on the statistics *)

Lemma sum_points_untouched e (f : Accounts.row -> Accounts.row) rows :
  (forall r, In r rows -> email_is e r = false) ->
  fold_right Z.add 0
    (map Accounts.points (map (fun r => if email_is e r then f r else r) rows))
  = fold_right Z.add 0 (map Accounts.points rows).
Proof.
  induction rows as [|r rows IH]; simpl; intros Hnone; [reflexivity|].
  rewrite (Hnone r (or_introl eq_refl)), IH; [reflexivity|].
  intros r' Hin. apply Hnone. right. exact Hin.
Qed.

Lemma sum_points_credited now e n rows :
  NoDup (map Accounts.email rows) ->
  fold_right Z.add 0
    (map Accounts.points
         (map (fun r => if email_is e r then credit now n r else r) rows))
  = fold_right Z.add 0 (map Accounts.points rows)
    + match find (email_is e) rows with Some _ => n | None => 0 end.
Proof.
  induction rows as [|r rows IH]; simpl; intros Hnd; [reflexivity|].
  inversion Hnd as [|? ? Hnotin Hrest]; subst.
  destruct (email_is e r) eqn:He; simpl.
  - rewrite sum_points_untouched; [lia|].
    intros r' Hin. apply email_is_false. apply email_is_true in He.
    intros He'. apply Hnotin. rewrite He, <- He'. apply in_map. exact Hin.
  - rewrite (IH Hrest). lia.
Qed.

(** Over values that are not negative the partial sums grow, so the
    [SUM] has a value as soon as the whole sum fits. *)
Lemma sum_from_nonnegative (values : list Z) :
  forall acc,
    0 <= acc ->
    Forall (fun v => 0 <= v) values ->
    acc + fold_right Z.add 0 values <= int64_max ->
    sum_from acc values = Returns (acc + fold_right Z.add 0 values).
Proof.
  induction values as [|v values IH]; simpl; intros acc Hacc Hall Hfits.
  - f_equal. lia.
  - inversion Hall as [|? ? Hv Hrest]; subst.
    assert (Hsum : 0 <= fold_right Z.add 0 values).
    { clear -Hrest. induction Hrest; simpl; lia. }
    replace (in_int64 (acc + v)) with true.
    + rewrite IH; [f_equal; lia|lia|exact Hrest|lia].
    + symmetry. apply in_int64_spec. unfold int64_min. lia.
Qed.

Lemma sum_points_nonnegative (d : db) :
  Forall (fun r => 0 <= Accounts.points r) (accounts d) ->
  fold_right Z.add 0 (map Accounts.points (accounts d)) <= int64_max ->
  exists sum, sum_points d = Returns sum.
Proof.
  intros Hall Hfits. unfold sum_points.
  destruct (accounts d) as [|r rows] eqn:Hrows; [eexists; reflexivity|].
  rewrite sum_from_nonnegative; [eexists; reflexivity|lia| |exact Hfits].
  apply Forall_map. exact Hall.
Qed.

Lemma points_below_sum (rows : list Accounts.row) (r : Accounts.row) :
  Forall (fun r => 0 <= Accounts.points r) rows ->
  In r rows ->
  Accounts.points r <= fold_right Z.add 0 (map Accounts.points rows).
Proof.
  induction 1 as [|r0 rows Hr0 Hrest IH]; simpl; intros Hin;
    [destruct Hin|].
  assert (Hsum : 0 <= fold_right Z.add 0 (map Accounts.points rows)).
  { clear -Hrest. induction Hrest; simpl; lia. }
  destruct Hin as [-> | Hin]; [lia|]. specialize (IH Hin). lia.
Qed.

(** X10.  In every store reached from a fresh database in which no
    account has negative points, a credit that is not negative and that
    keeps the sum of all points within the 64-bit integers goes
    through, and it raises the total that [get_stats] reports by exactly
    the credited amount when the email has an account, and leaves it as
    it was when it has none; the number of accounts does not change. *)
Theorem total_points_follow_credits :
  forall (history : list (timestamp * call)) (now : timestamp)
         (e : string) (n : Z),
    let d := run history init_database in
    Forall (fun r => 0 <= Accounts.points r) (accounts d) ->
    0 <= n ->
    fold_right Z.add 0 (map Accounts.points (accounts d)) + n <= int64_max ->
    exists d' s s',
      AccountManager.update_account_points now e n d = Returns (Some d')
      /\ get_stats d = Returns s
      /\ get_stats d' = Returns s'
      /\ total_accounts s' = total_accounts s
      /\ total_points s' =
         total_points s
         + match get_account_by_email e d with Some _ => n | None => 0 end.
Proof.
  intros history now e n d Hall Hn Hfits.
  assert (Hu : unique_emails d).
  { apply run_invariant; [apply exec_unique_emails|constructor]. }
  assert (Htotal : 0 <= fold_right Z.add 0 (map Accounts.points (accounts d))).
  { clear -Hall. induction Hall; simpl; lia. }
  assert (Hbound : in_int64 n = true).
  { apply in_int64_spec. unfold int64_min. lia. }
  set (d' := update_account_points now e n d).
  assert (Hcall : AccountManager.update_account_points now e n d
                  = Returns (Some d')).
  { destruct (get_account_by_email e d) as [r|] eqn:Hget.
    - rewrite (update_account_points_in_range now e n d r Hu Hget Hbound).
      replace (in_int64 (Accounts.points r + n)) with true; [reflexivity|].
      symmetry. apply in_int64_spec.
      apply find_some in Hget as [Hin _].
      pose proof (points_below_sum _ r Hall Hin) as Hle.
      rewrite Forall_forall in Hall. specialize (Hall r Hin).
      unfold int64_min. lia.
    - unfold d'. rewrite update_account_points_no_row by exact Hget.
      apply update_account_points_missing; assumption. }
  assert (Hsum' : fold_right Z.add 0 (map Accounts.points (accounts d'))
                  = fold_right Z.add 0 (map Accounts.points (accounts d))
                    + match get_account_by_email e d with
                      | Some _ => n
                      | None => 0
                      end).
  { unfold d', update_account_points; simpl.
    apply sum_points_credited. exact Hu. }
  destruct (sum_points_nonnegative d Hall) as [sum Hsum]; [lia|].
  destruct (sum_points_nonnegative d') as [sum' Hsum2].
  { unfold d', update_account_points; simpl.
    apply Forall_map. eapply Forall_impl; [|exact Hall].
    intros r Hr. simpl in Hr. destruct (email_is e r); simpl; lia. }
  { rewrite Hsum'. destruct (get_account_by_email e d); lia. }
  exists d'. do 2 eexists.
  split; [exact Hcall|].
  split; [apply (get_stats_returns d sum Hsum)|].
  split; [apply (get_stats_returns d' sum' Hsum2)|].
  cbn [total_accounts total_points]. split.
  - unfold d', update_account_points; simpl. rewrite length_map. reflexivity.
  - exact Hsum'.
Qed.

Lemma total_points_follow_credits_witness :
  exists d' s s',
    AccountManager.update_account_points sample_now "a@example.com" 5
                                         sample_store
    = Returns (Some d')
    /\ get_stats sample_store = Returns s
    /\ get_stats d' = Returns s'
    /\ total_points s = 40
    /\ total_points s' = 45.
Proof.
  destruct (total_points_follow_credits sample_history sample_now
              "a@example.com" 5)
    as (d' & s & s' & Hcall & Hs & Hs' & _ & Hpoints).
  - repeat constructor; simpl; lia.
  - lia.
  - vm_compute. discriminate.
  - exists d', s, s'. split; [exact Hcall|]. split; [exact Hs|].
    split; [exact Hs'|].
    assert (H40 : total_points s = 40).
    { change (get_stats sample_store) with
        (Returns (A := stats)
           {| total_accounts := 4;
              verified_accounts := 3;
              pending_accounts := 1;
              total_points := 40;
              verification_rate :=
                FloatValue (S754_finite false 5277655813324800 (-46));
              referral_stats := [("REF1", 3); ("REF2", 1)] |}) in Hs.
      injection Hs as <-. reflexivity. }
    split; [exact H40|]. rewrite Hpoints, H40. reflexivity.
Defined.

Lemma sum_permutation (l l' : list Z) :
  Permutation l l' -> fold_right Z.add 0 l = fold_right Z.add 0 l'.
Proof. induction 1; simpl; lia. Qed.

Lemma sum_of_indicator (x : string) (l : list string) :
  NoDup l -> In x l ->
  fold_right Z.add 0
    (map (fun c => if string_dec x c then 1 else 0) l) = 1.
Proof.
  induction l as [|c l IH]; simpl; intros Hnd Hin; [destruct Hin|].
  inversion Hnd as [|? ? Hnotin Hrest]; subst.
  destruct (string_dec x c) as [->|Hne].
  - replace (fold_right Z.add 0
               (map (fun c0 => if string_dec c c0 then 1 else 0) l))
      with 0; [lia|].
    clear IH Hrest Hin Hnd. induction l as [|c' l IH]; simpl; [reflexivity|].
    destruct (string_dec c c') as [->|_].
    + exfalso. apply Hnotin. left. reflexivity.
    + rewrite <- IH; [reflexivity|]. intros H. apply Hnotin. right. exact H.
  - destruct Hin as [->|Hin]; [congruence|]. rewrite IH by assumption. lia.
Qed.

Lemma sum_map_add {A : Type} (f g : A -> Z) (l : list A) :
  fold_right Z.add 0 (map (fun c => f c + g c) l)
  = fold_right Z.add 0 (map f l) + fold_right Z.add 0 (map g l).
Proof. induction l as [|c l IH]; simpl; lia. Qed.

Lemma sum_of_counts (codes l : list string) :
  NoDup l -> incl codes l ->
  fold_right Z.add 0
    (map (fun c => Z.of_nat (count_occ string_dec codes c)) l)
  = Z.of_nat (List.length codes).
Proof.
  intros Hnd. induction codes as [|x codes IH]; intros Hincl.
  - simpl. clear Hnd Hincl. induction l as [|c l IHl]; simpl; lia.
  - assert (Hx : In x l) by (apply Hincl; left; reflexivity).
    assert (Hrest : incl codes l)
      by (intros c Hc; apply Hincl; right; exact Hc).
    rewrite (map_ext _
               (fun c => (if string_dec x c then 1 else 0)
                         + Z.of_nat (count_occ string_dec codes c))).
    + rewrite sum_map_add, (sum_of_indicator x l Hnd Hx), (IH Hrest).
      simpl List.length. lia.
    + intros c. simpl. destruct (string_dec x c); lia.
Qed.

Lemma group_by_referral_code_codes rows :
  Permutation (map fst (group_by_referral_code rows))
              (nodup string_dec (map Accounts.referral_code rows)).
Proof.
  unfold group_by_referral_code. rewrite map_map. simpl. rewrite map_id.
  apply order_by_perm.
Qed.

(** X11.  When the [SUM] of the points has a value, [get_stats]
    returns, and its referral histogram lists every referral code in
    use exactly once, with the number of accounts that carry it; the
    counts add up to the total number of accounts, and no entry comes
    before one with a larger count. *)
Theorem referral_stats_count_every_account :
  forall (d : db) (sum : option Z),
    sum_points d = Returns sum ->
    exists s,
      get_stats d = Returns s
      /\ NoDup (map fst (referral_stats s))
      /\ (forall code n,
            In (code, n) (referral_stats s) <->
            In code (map Accounts.referral_code (accounts d))
            /\ n = Z.of_nat
                     (count_occ string_dec
                        (map Accounts.referral_code (accounts d)) code))
      /\ fold_right Z.add 0 (map snd (referral_stats s)) = total_accounts s
      /\ StronglySorted (fun a b => snd b <= snd a) (referral_stats s).
Proof.
  intros d sum Hsum.
  eexists. split; [apply (get_stats_returns d sum Hsum)|].
  cbn [referral_stats total_accounts].
  set (codes := map Accounts.referral_code (accounts d)).
  set (by_count := fun a b : string * Z => snd b <=? snd a).
  assert (Hperm : Permutation
                    (order_by by_count (group_by_referral_code (accounts d)))
                    (group_by_referral_code (accounts d)))
    by apply order_by_perm.
  assert (Hcodes : Permutation
                     (map fst (group_by_referral_code (accounts d)))
                     (nodup string_dec codes))
    by apply group_by_referral_code_codes.
  split; [|split; [|split]].
  - eapply Permutation_NoDup.
    + symmetry. etransitivity; [apply Permutation_map, Hperm|exact Hcodes].
    + apply NoDup_nodup.
  - intros code n. split.
    + intros Hin. apply (Permutation_in _ Hperm) in Hin.
      unfold group_by_referral_code in Hin. fold codes in Hin.
      apply in_map_iff in Hin. destruct Hin as (c & Heq & Hc).
      injection Heq as <- <-.
      apply (Permutation_in _ (order_by_perm _ _)) in Hc.
      apply nodup_In in Hc. split; [exact Hc|reflexivity].
    + intros [Hin ->].
      apply (Permutation_in _ (Permutation_sym Hperm)).
      unfold group_by_referral_code. fold codes.
      apply in_map_iff. exists code. split; [reflexivity|].
      apply (Permutation_in _ (Permutation_sym (order_by_perm _ _))).
      apply nodup_In. exact Hin.
  - rewrite (sum_permutation _ _ (Permutation_map snd Hperm)).
    unfold group_by_referral_code. fold codes. rewrite map_map. simpl.
    rewrite (sum_permutation _ _
               (Permutation_map
                  (fun c => Z.of_nat (count_occ string_dec codes c))
                  (order_by_perm (fun a b => String.leb b a)
                                 (nodup string_dec codes)))).
    rewrite sum_of_counts.
    + unfold codes. rewrite length_map. reflexivity.
    + apply NoDup_nodup.
    + intros c Hc. apply nodup_In. exact Hc.
  - eapply StronglySorted_impl; [|apply order_by_sorted].
    + intros a b Hab. apply Z.leb_le. exact Hab.
    + intros a b. unfold by_count.
      destruct (Z.leb_spec (snd b) (snd a));
        destruct (Z.leb_spec (snd a) (snd b)); auto; lia.
    + unfold by_count. intros a b c Hab Hbc.
      apply Z.leb_le in Hab, Hbc. apply Z.leb_le. lia.
Qed.

Lemma referral_stats_count_every_account_witness :
  exists s,
    get_stats sample_store = Returns s
    /\ fold_right Z.add 0 (map snd (referral_stats s)) = total_accounts s.
Proof.
  destruct (referral_stats_count_every_account sample_store (Some 40) eq_refl)
    as (s & Hs & _ & _ & Hsum & _).
  exists s. split; [exact Hs|exact Hsum].
Defined.

(** ** The task history *)

Lemma exec_appends_history now c d :
  is_delete c = false ->
  task_history (exec now c d) =
  (task_history d ++
  match c with
  | RecordTaskCompletion e t xp dt =>
      [ {| TaskHistory.id :=
             next_rowid (map TaskHistory.id (task_history d))
                        (task_history_seq d);
           TaskHistory.email := e;
           TaskHistory.task_type := t;
           TaskHistory.xp_earned := xp;
           TaskHistory.completed_at := now;
           TaskHistory.details := details_column dt |} ]
  | _ => []
  end)%list.
Proof.
  destruct c; simpl; intros H; try discriminate;
    try (rewrite app_nil_r; reflexivity); reflexivity.
Qed.

(** X12.  The task history is append-only as long as no account is
    deleted: along a history without [delete_account], the entries
    present at the start stay, in place and unchanged, and one entry is
    appended per [record_task_completion], in call order and under the
    email of the call, whether or not that email has an account. *)
Theorem task_history_append_only :
  forall (history : list (timestamp * call)) (d : db),
    Forall (fun tc => is_delete (snd tc) = false) history ->
    exists added,
      task_history (run history d) = (task_history d ++ added)%list
      /\ map TaskHistory.email added =
         map call_email (filter is_record (map snd history))
      /\ map TaskHistory.completed_at added =
         map fst (filter (fun tc => is_record (snd tc)) history).
Proof.
  intros history.
  induction history as [|[now c] history IH]; intros d Hok; simpl.
  - exists []. rewrite app_nil_r. repeat split; reflexivity.
  - inversion Hok as [|? ? Hc Hrest]; subst. simpl in Hc.
    destruct (IH (exec now c d) Hrest) as (added & Hrun & Hemails & Htimes).
    rewrite Hrun, (exec_appends_history now c d Hc), <- app_assoc.
    eexists. split; [reflexivity|].
    destruct c; simpl; rewrite ?Hemails, ?Htimes; split; reflexivity.
Qed.

Lemma task_history_append_only_witness :
  exists added,
    task_history sample_store = ([] ++ added)%list
    /\ map TaskHistory.email added = ["b@example.com"; "a@example.com"].
Proof.
  destruct (task_history_append_only sample_history init_database)
    as (added & Hrun & Hemails & _).
  - repeat constructor.
  - exists added. split; [exact Hrun|exact Hemails].
Defined.

(** ** CSV export *)

Lemma dict_to_list_of_row sqlite_text r0 r :
  dict_to_list (map fst (dict_of_row sqlite_text r0))
               (dict_of_row sqlite_text r)
  = map snd (dict_of_row sqlite_text r).
Proof. reflexivity. Qed.

Lemma list_eq_dec_nil {A : Type} (l : list A) : l = [] \/ l <> [].
Proof. destruct l; [left; reflexivity|right; discriminate]. Qed.

(** X13.  [export_to_csv] writes nothing at all, not even the header,
    when the store has no account.  Otherwise it writes the twelve
    column names and then one record per account, in the order of
    [get_all_accounts], whose cells are the twelve column values of
    that row. *)
Theorem export_to_csv_records :
  forall (sqlite_text : timestamp -> string) (d : db),
    (accounts d = [] <-> export_to_csv sqlite_text d = [])
    /\ (accounts d <> [] ->
        export_to_csv sqlite_text d =
        map PyStr
            ["id"; "email"; "password"; "referral_code"; "created_at";
             "verified"; "verification_code"; "points"; "last_task_run";
             "status"; "cookies"; "notes"]
        :: map (fun r => map snd (dict_of_row sqlite_text r))
               (get_all_accounts d))
    /\ (forall record, In record (export_to_csv sqlite_text d) ->
                       List.length record = 12%nat).
Proof.
  intros sqlite_text d.
  assert (Hnil : accounts d = [] <-> get_all_accounts d = []).
  { pose proof (order_by_length
                  (fun a b => Accounts.created_at b <=? Accounts.created_at a)
                  (accounts d)) as Hlen.
    fold (get_all_accounts d) in Hlen.
    destruct (accounts d), (get_all_accounts d);
      split; intros; try reflexivity; discriminate. }
  assert (Hrows : get_all_accounts d <> [] ->
             export_to_csv sqlite_text d =
             map PyStr
                 ["id"; "email"; "password"; "referral_code"; "created_at";
                  "verified"; "verification_code"; "points"; "last_task_run";
                  "status"; "cookies"; "notes"]
             :: map (fun r => map snd (dict_of_row sqlite_text r))
                    (get_all_accounts d)).
  { intros Hsome. unfold export_to_csv.
    destruct (get_all_accounts d) as [|r0 rows]; [congruence|].
    cbn [map]. apply f_equal2; [reflexivity|].
    apply f_equal2; [apply dict_to_list_of_row|].
    rewrite map_map. apply map_ext. intros r. apply dict_to_list_of_row. }
  assert (Hempty : get_all_accounts d = [] ->
                   export_to_csv sqlite_text d = []).
  { intros Hnone. unfold export_to_csv. rewrite Hnone. reflexivity. }
  split; [|split].
  - split.
    + intros H. apply Hempty, Hnil, H.
    + intros Hnone. apply Hnil.
      destruct (get_all_accounts d) as [|r0 rows] eqn:Heq; [reflexivity|].
      rewrite Hrows in Hnone by discriminate. discriminate.
  - intros Hsome. apply Hrows. intros H. apply Hsome, Hnil, H.
  - intros record Hin.
    destruct (list_eq_dec_nil (get_all_accounts d)) as [Hnone | Hsome].
    + rewrite (Hempty Hnone) in Hin. destruct Hin.
    + rewrite (Hrows Hsome) in Hin. destruct Hin as [<- | Hin].
      * reflexivity.
      * apply in_map_iff in Hin. destruct Hin as (r & <- & _). reflexivity.
Qed.

(** * Properties of the address generator *)

Section DotInsertion.
Local Open Scope nat_scope.
Local Open Scope list_scope.
Implicit Types (l pre : list ascii) (ps : list nat).

Lemma insert_dots_cons p ps l :
  insert_dots (p :: ps) l = insert_dots ps (list_insert p "."%char l).
Proof. reflexivity. Qed.

Lemma length_list_ascii (s : string) :
  List.length (list_ascii_of_string s) = String.length s.
Proof. induction s as [|c s IH]; simpl; [reflexivity|]. f_equal. exact IH. Qed.

Lemma list_insert_length {A : Type} p (x : A) (l : list A) :
  List.length (list_insert p x l) = S (List.length l).
Proof.
  unfold list_insert. rewrite length_app. simpl.
  rewrite Nat.add_succ_r. f_equal.
  rewrite <- length_app, firstn_skipn. reflexivity.
Qed.

Lemma insert_dots_length ps l :
  List.length (insert_dots ps l) = List.length l + List.length ps.
Proof.
  revert l. induction ps as [|p ps IH]; intros l.
  - unfold insert_dots. simpl. lia.
  - rewrite insert_dots_cons, IH, list_insert_length. simpl. lia.
Qed.

Lemma without_dots_insert p l :
  without_dots (list_insert p "."%char l) = without_dots l.
Proof.
  unfold without_dots, list_insert. rewrite filter_app. simpl.
  rewrite <- filter_app, firstn_skipn. reflexivity.
Qed.

Lemma without_dots_insert_dots ps l :
  without_dots (insert_dots ps l) = without_dots l.
Proof.
  revert l. induction ps as [|p ps IH]; intros l; [reflexivity|].
  rewrite insert_dots_cons, IH. apply without_dots_insert.
Qed.

Lemma last_app_nonempty {A : Type} (l tail : list A) (default : A) :
  tail <> [] -> last (l ++ tail) default = last tail default.
Proof.
  intros Htail. induction l as [|x l IH]; [reflexivity|].
  simpl. rewrite IH.
  destruct (l ++ tail) eqn:Happ; [|reflexivity].
  apply app_eq_nil in Happ. tauto.
Qed.

Lemma insert_dots_head ps l :
  Forall (fun p => 1 <= p) ps -> l <> [] ->
  hd_error (insert_dots ps l) = hd_error l.
Proof.
  revert l. induction ps as [|p ps IH]; intros l Hps Hl; [reflexivity|].
  inversion Hps as [|? ? Hp Hrest]; subst.
  rewrite insert_dots_cons, IH; [|exact Hrest|].
  - destruct l as [|c l]; [congruence|]. destruct p; [lia|reflexivity].
  - intros Hnil. apply (f_equal (@List.length ascii)) in Hnil.
    rewrite list_insert_length in Hnil. discriminate.
Qed.

Lemma list_insert_last {A : Type} p (x : A) (l : list A) (default : A) :
  p < List.length l ->
  last (list_insert p x l) default = last l default.
Proof.
  intros Hp.
  assert (Hskip : skipn p l <> []).
  { intros Hnil. apply (f_equal (@List.length A)) in Hnil.
    rewrite length_skipn in Hnil. simpl in Hnil. lia. }
  unfold list_insert. rewrite last_app_nonempty by discriminate.
  transitivity (last (skipn p l) default).
  - destruct (skipn p l); [congruence|reflexivity].
  - symmetry. rewrite <- (firstn_skipn p l) at 1.
    apply last_app_nonempty. exact Hskip.
Qed.

Lemma insert_dots_last ps l (default : ascii) :
  Forall (fun p => p < List.length l) ps ->
  last (insert_dots ps l) default = last l default.
Proof.
  revert l. induction ps as [|p ps IH]; intros l Hps; [reflexivity|].
  inversion Hps as [|? ? Hp Hrest]; subst.
  rewrite insert_dots_cons, IH.
  - apply list_insert_last. exact Hp.
  - rewrite list_insert_length.
    eapply Forall_impl; [|exact Hrest]. simpl. intros; lia.
Qed.

Lemma insert_dots_prefix ps pre tail :
  Forall (fun p => p <= List.length pre) ps ->
  insert_dots ps (pre ++ tail) = insert_dots ps pre ++ tail.
Proof.
  revert pre. induction ps as [|p ps IH]; intros pre Hps; [reflexivity|].
  inversion Hps as [|? ? Hp Hrest]; subst. rewrite !insert_dots_cons.
  assert (Hins : list_insert p "."%char (pre ++ tail) =
                 list_insert p "."%char pre ++ tail).
  { unfold list_insert. rewrite firstn_app, skipn_app.
    replace (p - List.length pre) with 0 by lia. simpl.
    rewrite app_nil_r, <- app_assoc. reflexivity. }
  rewrite Hins. apply IH. rewrite list_insert_length.
  eapply Forall_impl; [|exact Hrest]. simpl. intros; lia.
Qed.

Lemma dots_apart_no_dots l :
  Forall (fun c => c <> "."%char) l -> dots_apart l = true.
Proof.
  induction 1 as [|c l Hc _ IH]; simpl; [reflexivity|].
  rewrite IH, andb_true_r.
  destruct l; [reflexivity|].
  apply Ascii.eqb_neq in Hc. rewrite Hc. reflexivity.
Qed.

Lemma dots_apart_app l tail :
  dots_apart l = true -> last l "a"%char <> "."%char ->
  dots_apart tail = true -> dots_apart (l ++ tail) = true.
Proof.
  induction l as [|c l IH]; intros Hl Hlast Htail; [exact Htail|].
  simpl in Hl. apply andb_true_iff in Hl. destruct Hl as [Hc Hl].
  destruct l as [|c' l].
  - simpl in *. rewrite Htail, andb_true_r.
    destruct tail; [reflexivity|].
    apply Ascii.eqb_neq in Hlast. rewrite Hlast. reflexivity.
  - change ((c :: c' :: l) ++ tail) with (c :: (c' :: l) ++ tail).
    cbn [dots_apart]. change ((c' :: l) ++ tail) with (c' :: l ++ tail).
    cbn [dots_apart] in IH |- *.
    rewrite Hc. simpl. apply IH; assumption.
Qed.

Lemma last_no_dots l :
  Forall (fun c => c <> "."%char) l -> last l "a"%char <> "."%char.
Proof.
  induction 1 as [|c l Hc Hl IH]; simpl; [discriminate|].
  destruct l; [exact Hc|exact IH].
Qed.

(** Dots put at falling positions inside a run of letters never
    meet. *)
Lemma insert_dots_apart ps :
  forall pre,
    StronglySorted (fun a b => b < a) ps ->
    Forall (fun p => 1 <= p < List.length pre) ps ->
    Forall (fun c => c <> "."%char) pre ->
    dots_apart (insert_dots ps pre) = true
    /\ last (insert_dots ps pre) "a"%char <> "."%char.
Proof.
  induction ps as [|p ps IH]; intros pre Hsorted Hps Hpre.
  - split; [apply dots_apart_no_dots|apply last_no_dots]; exact Hpre.
  - rewrite insert_dots_cons. apply StronglySorted_inv in Hsorted. destruct Hsorted as [Hsorted Hbelow].
    inversion Hps as [|? ? Hp Hrest]; subst.
    assert (Hlen : List.length (firstn p pre) = p)
      by (rewrite length_firstn; lia).
    unfold list_insert.
    rewrite insert_dots_prefix
      by (rewrite Hlen; eapply Forall_impl; [|exact Hbelow];
          simpl; intros; lia).
    destruct (IH (firstn p pre)) as [Hapart Hlast].
    + exact Hsorted.
    + rewrite Hlen. rewrite Forall_forall in *. intros q Hq.
      specialize (Hrest q Hq). specialize (Hbelow q Hq). lia.
    + rewrite <- (firstn_skipn p pre) in Hpre.
      apply Forall_app in Hpre. tauto.
    + assert (Hskip : Forall (fun c => c <> "."%char) (skipn p pre)).
      { rewrite <- (firstn_skipn p pre) in Hpre.
        apply Forall_app in Hpre. tauto. }
      assert (Hnonempty : skipn p pre <> []).
      { intros Hnil. apply (f_equal (@List.length ascii)) in Hnil.
        rewrite length_skipn in Hnil. simpl in Hnil. lia. }
      split.
      * apply dots_apart_app; [exact Hapart|exact Hlast|].
        destruct (skipn p pre) as [|c rest] eqn:Hs; [congruence|].
        cbn [dots_apart]. inversion Hskip as [|? ? Hc Hrest']; subst.
        apply Ascii.eqb_neq in Hc. rewrite Hc, andb_false_r. simpl.
        rewrite (dots_apart_no_dots rest Hrest'). destruct rest; reflexivity.
      * rewrite last_app_nonempty by discriminate.
        destruct (skipn p pre) as [|c rest] eqn:Hs; [congruence|].
        change (last ("."%char :: c :: rest) "a"%char)
          with (last (c :: rest) "a"%char).
        apply last_no_dots. exact Hskip.
Qed.

Lemma falling_of_sorted ps :
  StronglySorted (fun a b => (b <=? a) = true) ps -> NoDup ps ->
  StronglySorted (fun a b => b < a) ps.
Proof.
  induction 1 as [|p ps _ IH Hp]; intros Hnd; constructor.
  - apply IH. inversion Hnd; assumption.
  - inversion Hnd as [|? ? Hnotin _]; subst.
    rewrite Forall_forall in *. intros q Hq.
    specialize (Hp q Hq). apply Nat.leb_le in Hp.
    assert (q <> p) by (intros ->; contradiction). lia.
Qed.
End DotInsertion.

Lemma py_in_gmail_nonempty base :
  py_in "@gmail.com" base = true -> (base =? "")%string = false.
Proof. destruct base; [discriminate|reflexivity]. Qed.

Lemma lowest_draws_fair : fair_draws lowest_draws.
Proof.
  unfold fair_draws, lowest_draws; simpl.
  split; [intros; lia|]. split.
  - intros population k Hnd Hk. split; [|split].
    + rewrite <- (firstn_skipn k population) in Hnd.
      apply NoDup_app_remove_r in Hnd. exact Hnd.
    + intros x Hx. rewrite <- (firstn_skipn k population).
      apply in_or_app. left. exact Hx.
    + rewrite length_firstn. lia.
  - repeat split; try lia. repeat constructor.
Qed.

(** With fair draws and a local part of at least two characters, the
    generator puts dots at between one and three distinct places
    strictly inside the local part, taken from the right. *)
Lemma gmail_variation_positions r base :
  fair_draws r ->
  py_in "@gmail.com" base = true ->
  (2 <= String.length (before_at base))%nat ->
  let chars := list_ascii_of_string (before_at base) in
  let k := randint r 1 (Z.min 3 (Z.of_nat (String.length (before_at base)) - 1)) in
  exists ps,
    generate_gmail_variation r base =
    Generated (string_of_list_ascii (insert_dots ps chars) ++ "@gmail.com")
    /\ 1 <= k <= 3
    /\ Z.of_nat (List.length ps) = k
    /\ StronglySorted (fun a b => (b < a)%nat) ps
    /\ Forall (fun p => (1 <= p < List.length chars)%nat) ps.
Proof.
  intros (Hrandint & Hsample & _) Hin Hlen chars k.
  unfold generate_gmail_variation.
  rewrite (py_in_gmail_nonempty base Hin), Hin. simpl.
  rewrite (length_list_ascii (before_at base)). fold chars.
  set (upper := Z.min 3 (Z.of_nat (String.length (before_at base)) - 1)).
  assert (Hupper : 1 <= upper <= 3) by (unfold upper; lia).
  assert (Hroom : upper <= Z.of_nat (String.length (before_at base) - 1))
    by (unfold upper; lia).
  destruct (Z.ltb_spec upper 1) as [Hlt|_]; [lia|].
  fold upper in k. fold k.
  assert (Hk : 1 <= k <= upper) by (apply Hrandint; lia).
  rewrite length_seq.
  destruct (Z.ltb_spec (Z.of_nat (String.length (before_at base) - 1)) k)
    as [Hclamp|_]; [lia|].
  set (available := seq 1 (String.length (before_at base) - 1)).
  destruct (Hsample available (Z.to_nat k)) as (Hnd & Hincl & Hcount).
  { apply seq_NoDup. }
  { unfold available. rewrite length_seq. lia. }
  set (drawn := sample r available (Z.to_nat k)) in *.
  set (falling := fun a b : nat => (b <=? a)%nat).
  assert (Hperm : Permutation (order_by falling drawn) drawn)
    by apply order_by_perm.
  exists (order_by falling drawn). split; [reflexivity|].
  split; [lia|]. split; [|split].
  - rewrite (Permutation_length Hperm), Hcount. lia.
  - apply falling_of_sorted.
    + apply order_by_sorted; unfold falling.
      * intros a b. destruct (Nat.leb_spec b a), (Nat.leb_spec a b);
          auto; lia.
      * intros a b c Hab Hbc. apply Nat.leb_le in Hab, Hbc.
        apply Nat.leb_le. lia.
    + apply (Permutation_NoDup (Permutation_sym Hperm)). exact Hnd.
  - rewrite Forall_forall. intros p Hp.
    apply (Permutation_in _ Hperm), Hincl in Hp.
    unfold available in Hp. apply in_seq in Hp.
    unfold chars. rewrite length_list_ascii. lia.
Qed.

Lemma append_length (s s' : string) :
  String.length (s ++ s') = (String.length s + String.length s')%nat.
Proof. induction s as [|c s IH]; simpl; [reflexivity|]. f_equal. exact IH. Qed.

(** X14.  Whatever the draws, a variation of a Gmail address is the
    local part of the base with dots added, followed by ["@gmail.com"]:
    taking the dots out of both local parts gives the same letters, so
    the variation reaches the inbox of the base. *)
Theorem gmail_variation_same_inbox :
  forall (r : random_draws) (base email : string),
    py_in "@gmail.com" base = true ->
    generate_gmail_variation r base = Generated email ->
    exists new_local,
      email = new_local ++ "@gmail.com"
      /\ without_dots (list_ascii_of_string new_local) =
         without_dots (list_ascii_of_string (before_at base)).
Proof.
  intros r base email Hin. unfold generate_gmail_variation.
  rewrite (py_in_gmail_nonempty base Hin), Hin. simpl.
  destruct (Z.min 3 (Z.of_nat (String.length (before_at base)) - 1) <? 1);
    [discriminate|].
  intros Hgen. injection Hgen as <-. eexists. split; [reflexivity|].
  rewrite list_ascii_of_string_of_list_ascii. apply without_dots_insert_dots.
Qed.

Lemma gmail_variation_same_inbox_witness :
  exists new_local,
    generate_gmail_variation lowest_draws "johnbull@gmail.com"
    = Generated (new_local ++ "@gmail.com")
    /\ without_dots (list_ascii_of_string new_local) =
       list_ascii_of_string "johnbull".
Proof.
  destruct (gmail_variation_same_inbox
              lowest_draws "johnbull@gmail.com" "j.ohnbull@gmail.com"
              eq_refl eq_refl) as (new_local & Hemail & Hsame).
  exists new_local. split; [rewrite <- Hemail; reflexivity|exact Hsame].
Defined.

(** X15.  With fair draws and a local part of at least two characters,
    the generator does not raise and adds exactly as many dots as
    [random.randint] drew, between one and three (the clamp on
    [num_dots] never applies); the first and the last character of the
    local part stay where they are, so no dot is put at either end. *)
Theorem gmail_variation_dots_inside :
  forall (r : random_draws) (base : string),
    fair_draws r ->
    py_in "@gmail.com" base = true ->
    (2 <= String.length (before_at base))%nat ->
    exists new_local,
      generate_gmail_variation r base = Generated (new_local ++ "@gmail.com")
      /\ 1 <= randint r 1 (Z.min 3 (Z.of_nat (String.length (before_at base)) - 1)) <= 3
      /\ Z.of_nat (String.length new_local) =
         Z.of_nat (String.length (before_at base))
         + randint r 1 (Z.min 3 (Z.of_nat (String.length (before_at base)) - 1))
      /\ hd_error (list_ascii_of_string new_local) =
         hd_error (list_ascii_of_string (before_at base))
      /\ last (list_ascii_of_string new_local) "."%char =
         last (list_ascii_of_string (before_at base)) "."%char.
Proof.
  intros r base Hfair Hin Hlen.
  destruct (gmail_variation_positions r base Hfair Hin Hlen)
    as (ps & Hgen & Hk & Hcount & _ & Hinside).
  eexists. split; [exact Hgen|]. split; [exact Hk|].
  rewrite list_ascii_of_string_of_list_ascii.
  rewrite <- (length_list_ascii (string_of_list_ascii _)),
    list_ascii_of_string_of_list_ascii, insert_dots_length,
    length_list_ascii.
  split; [lia|]. split.
  - apply insert_dots_head.
    + eapply Forall_impl; [|exact Hinside]. simpl. intros; lia.
    + intros Hnil. apply (f_equal (@List.length ascii)) in Hnil.
      rewrite length_list_ascii in Hnil. simpl in Hnil. lia.
  - apply insert_dots_last.
    eapply Forall_impl; [|exact Hinside]. simpl. intros; lia.
Qed.

Lemma gmail_variation_dots_inside_witness :
  exists new_local,
    generate_gmail_variation lowest_draws "johnbull@gmail.com"
    = Generated (new_local ++ "@gmail.com")
    /\ Z.of_nat (String.length new_local) = 8 + 1.
Proof.
  destruct (gmail_variation_dots_inside lowest_draws "johnbull@gmail.com"
              lowest_draws_fair eq_refl)
    as (new_local & Hgen & _ & Hcount & _).
  - simpl. lia.
  - exists new_local. split; [exact Hgen|exact Hcount].
Defined.

(** X16.  With fair draws, when the local part of the base holds no
    dot, no two dots of the variation are next to each other. *)
Theorem gmail_variation_dots_apart :
  forall (r : random_draws) (base : string),
    fair_draws r ->
    py_in "@gmail.com" base = true ->
    (2 <= String.length (before_at base))%nat ->
    Forall (fun c => c <> "."%char) (list_ascii_of_string (before_at base)) ->
    exists new_local,
      generate_gmail_variation r base = Generated (new_local ++ "@gmail.com")
      /\ dots_apart (list_ascii_of_string new_local) = true.
Proof.
  intros r base Hfair Hin Hlen Hletters.
  destruct (gmail_variation_positions r base Hfair Hin Hlen)
    as (ps & Hgen & _ & _ & Hfalling & Hinside).
  eexists. split; [exact Hgen|].
  rewrite list_ascii_of_string_of_list_ascii.
  apply insert_dots_apart; assumption.
Qed.

Lemma gmail_variation_dots_apart_witness :
  exists new_local,
    generate_gmail_variation lowest_draws "johnbull@gmail.com"
    = Generated (new_local ++ "@gmail.com")
    /\ dots_apart (list_ascii_of_string new_local) = true.
Proof.
  apply (gmail_variation_dots_apart lowest_draws "johnbull@gmail.com"
           lowest_draws_fair eq_refl).
  - simpl. lia.
  - simpl. repeat constructor; discriminate.
Defined.

Lemma generate_each_none generate draws first rounds :
  generate (draws first) = RaisesValueError ->
  (0 < rounds)%nat ->
  generate_each generate draws first rounds = None.
Proof.
  intros Hraise Hrounds. destruct rounds; [lia|]. simpl.
  rewrite Hraise. reflexivity.
Qed.

(** X17.  When the base contains ["@gmail.com"] but fewer than two
    characters come before its first ["@"] (["a@gmail.com"], say, which
    the setup accepts), [generate_gmail_variation] raises the
    [ValueError] of [random.randint] whatever the draws, and [getmails]
    passes it on for every positive count. *)
Theorem gmail_variation_short_local_part :
  forall (r : random_draws) (base : string),
    py_in "@gmail.com" base = true ->
    (String.length (before_at base) < 2)%nat ->
    generate_gmail_variation r base = RaisesValueError
    /\ (forall draws count,
          0 < count -> getmails base draws count = MailsValueError).
Proof.
  intros r base Hin Hshort.
  assert (Hraise : forall r', generate_gmail_variation r' base =
                              RaisesValueError).
  { intros r'. unfold generate_gmail_variation.
    rewrite (py_in_gmail_nonempty base Hin), Hin. simpl.
    destruct (Z.ltb_spec
                (Z.min 3 (Z.of_nat (String.length (before_at base)) - 1)) 1);
      [reflexivity|lia]. }
  split; [apply Hraise|].
  intros draws count Hcount. unfold getmails.
  rewrite (py_in_gmail_nonempty base Hin).
  rewrite generate_each_none; [reflexivity|apply Hraise|lia].
Qed.

Lemma gmail_variation_short_local_part_witness :
  generate_gmail_variation lowest_draws "a@gmail.com" = RaisesValueError
  /\ getmails "a@gmail.com" (fun _ => lowest_draws) 1 = MailsValueError.
Proof.
  destruct (gmail_variation_short_local_part lowest_draws "a@gmail.com"
              eq_refl) as [Hraise Hmails].
  - simpl. lia.
  - split; [exact Hraise|]. apply Hmails. lia.
Defined.

Lemma generate_each_length generate draws rounds :
  (forall i, exists email, generate (draws i) = Generated email) ->
  forall first,
    exists emails,
      generate_each generate draws first rounds = Some emails
      /\ List.length emails = rounds.
Proof.
  intros Hgen. induction rounds as [|rounds IH]; intros first; simpl.
  - exists []. split; reflexivity.
  - destruct (Hgen first) as (email & ->).
    destruct (IH (S first)) as (emails & -> & Hlen).
    exists (email :: emails). split; [reflexivity|]. simpl. f_equal. exact Hlen.
Qed.

(** X18.  With fair draws, and a base that is not configured, is not a
    Gmail address, or has at least two characters before its first
    ["@"], [getmails] never raises: it returns a single address for
    [count = 1] and otherwise a list of [count] addresses (none for a
    count of zero or less). *)
Theorem getmails_one_or_many :
  forall (base : string) (draws : nat -> random_draws) (count : Z),
    (forall i, fair_draws (draws i)) ->
    (py_in "@gmail.com" base = true ->
     (2 <= String.length (before_at base))%nat) ->
    match getmails base draws count with
    | OneMail _ => count = 1
    | Mails emails => count <> 1 /\ List.length emails = Z.to_nat count
    | MailsValueError => False
    end.
Proof.
  intros base draws count Hfair Hbase. unfold getmails.
  set (generate := fun r =>
         if (base =? "")%string then Generated (generate_temp_email r)
         else generate_gmail_variation r base).
  assert (Hgen : forall i, exists email,
             generate (draws i) = Generated email).
  { intros i. unfold generate.
    destruct (base =? "")%string; [eexists; reflexivity|].
    destruct (py_in "@gmail.com" base) eqn:Hin.
    - destruct (gmail_variation_positions (draws i) base (Hfair i) Hin
                  (Hbase eq_refl)) as (ps & -> & _).
      eexists. reflexivity.
    - unfold generate_gmail_variation. rewrite Hin, orb_true_r.
      eexists. reflexivity. }
  destruct (generate_each_length generate draws (Z.to_nat count) Hgen 0%nat)
    as (emails & -> & Hlen).
  destruct (Z.eqb_spec count 1) as [-> | Hne].
  - destruct emails; [discriminate|reflexivity].
  - split; assumption.
Qed.

Lemma getmails_one_or_many_witness :
  (exists email,
     getmails "johnbull@gmail.com" (fun _ => lowest_draws) 1 = OneMail email)
  /\ (exists emails,
        getmails "" (fun _ => lowest_draws) 3 = Mails emails
        /\ List.length emails = 3%nat).
Proof.
  split.
  - pose proof (getmails_one_or_many "johnbull@gmail.com"
                  (fun _ => lowest_draws) 1 (fun _ => lowest_draws_fair))
      as Hone.
    destruct (getmails "johnbull@gmail.com" (fun _ => lowest_draws) 1)
      as [email| |]; [exists email; reflexivity| |].
    + destruct Hone as [Hne _]; [simpl; lia|]. congruence.
    + destruct Hone. simpl. lia.
  - pose proof (getmails_one_or_many ""
                  (fun _ => lowest_draws) 3 (fun _ => lowest_draws_fair))
      as Hmany.
    destruct (getmails "" (fun _ => lowest_draws) 3)
      as [email|emails|].
    + discriminate Hmany. discriminate.
    + exists emails. split; [reflexivity|]. apply Hmany. discriminate.
    + destruct Hmany. discriminate.
Defined.

(** * Properties of the task bot and of the daily run *)

Lemma find_app_any {A : Type} (p : A -> bool) (l l' : list A) :
  find p (l ++ l') =
  match find p l with
  | Some x => Some x
  | None => find p l'
  end.
Proof.
  induction l as [|x l IH]; simpl; [reflexivity|].
  destruct (p x); [reflexivity|exact IH].
Qed.

Lemma dict_get_set key default k v d :
  dict_get key default (dict_set k v d) =
  if (k =? key)%string then v else dict_get key default d.
Proof.
  unfold dict_get. induction d as [|[k0 v0] d IH]; simpl.
  - destruct (k =? key)%string; reflexivity.
  - destruct (String.eqb_spec k0 k) as [->|Hne]; simpl.
    + destruct (k =? key)%string; reflexivity.
    + destruct (String.eqb_spec k0 key) as [->|Hne'].
      * destruct (String.eqb_spec k key); [congruence|reflexivity].
      * exact IH.
Qed.

Lemma dict_get_update key default other :
  forall d,
    dict_get key default (dict_update d other) =
    match find (fun kv => (fst kv =? key)%string) (rev other) with
    | Some kv => snd kv
    | None => dict_get key default d
    end.
Proof.
  unfold dict_update.
  induction other as [|[k v] other IH]; intros d; simpl; [reflexivity|].
  rewrite IH, find_app_any, dict_get_set. simpl.
  destruct (find (fun kv => (fst kv =? key)%string) (rev other));
    [reflexivity|].
  destruct (k =? key)%string; reflexivity.
Qed.

(** X19.  [_load_task_xp]: a task setting of the configuration
    replaces the default XP of its task (the last one when a name
    occurs twice), every other task keeps its default, and the seven
    tasks of the bot are always in the table, so that the fallback
    values of the [complete_...] methods are never used. *)
Theorem load_task_xp_overrides_defaults :
  forall (settings : xp_table),
    (forall key default,
       dict_get key default (_load_task_xp (Some settings)) =
       match find (fun kv => (fst kv =? key)%string) (rev settings) with
       | Some kv => snd kv
       | None => dict_get key default default_xp
       end)
    /\ (forall task_settings name default default',
          In name ["checkin"; "video"; "article"; "share"; "like";
                   "follow"; "profile"] ->
          dict_get name default (_load_task_xp task_settings) =
          dict_get name default' (_load_task_xp task_settings)).
Proof.
  intros settings. split.
  - intros key default. apply dict_get_update.
  - intros task_settings name default default' Hname.
    assert (Hdefault : dict_get name default default_xp =
                       dict_get name default' default_xp).
    { simpl in Hname.
      repeat (destruct Hname as [<- | Hname]; [reflexivity|]).
      destruct Hname. }
    destruct task_settings as [other|]; simpl; [|exact Hdefault].
    rewrite !dict_get_update, Hdefault. reflexivity.
Qed.

Section DailyRun.
Variable login : string -> string -> bool.

Lemma credited_refl r : credited r r.
Proof. unfold credited. repeat split; try reflexivity; lia. Qed.

Lemma credited_trans r1 r2 r3 :
  credited r1 r2 -> credited r2 r3 -> credited r1 r3.
Proof.
  unfold credited.
  intros (? & ? & ? & ? & ? & ? & ? & ? & ? & ? & ?)
         (? & ? & ? & ? & ? & ? & ? & ? & ? & ? & ?).
  repeat split; try congruence; lia.
Qed.

Lemma Forall2_credited_refl rows : Forall2 credited rows rows.
Proof. induction rows; constructor; [apply credited_refl|assumption]. Qed.

Lemma Forall2_credited_trans rows1 :
  forall rows2 rows3,
    Forall2 credited rows1 rows2 -> Forall2 credited rows2 rows3 ->
    Forall2 credited rows1 rows3.
Proof.
  induction rows1 as [|r rows1 IH]; intros rows2 rows3 H12 H23;
    inversion H12; subst; inversion H23; subst; constructor.
  - eapply credited_trans; eassumption.
  - eapply IH; eassumption.
Qed.

Lemma update_credited t e n d :
  0 <= n ->
  Forall2 credited (accounts d) (accounts (update_account_points t e n d)).
Proof.
  intros Hn. unfold update_account_points; simpl.
  induction (accounts d) as [|r rows IH]; simpl; constructor; [|exact IH].
  destruct (email_is e r); [|apply credited_refl].
  unfold credited; simpl. repeat split; try reflexivity; lia.
Qed.

Lemma success_means_positive task_xp d email password :
  outcome_success (complete_all_tasks login task_xp d email password) = true ->
  0 < outcome_total_xp (complete_all_tasks login task_xp d email password).
Proof.
  unfold complete_all_tasks.
  destruct (match password with
            | Some given =>
                if (given =? "")%string
                then option_map Accounts.password
                       (get_account_by_email email d)
                else Some given
            | None =>
                option_map Accounts.password (get_account_by_email email d)
            end) as [pw|]; [|discriminate].
  destruct (login email pw); simpl; [|discriminate].
  intros H. apply Z.ltb_lt. exact H.
Qed.

Lemma daily_round_credits task_xp clock state numbered :
  let state' := daily_round login task_xp clock state numbered in
  Forall2 credited (accounts (fst state)) (accounts (fst state'))
  /\ accounts_seq (fst state') = accounts_seq (fst state)
  /\ task_history (fst state') = task_history (fst state)
  /\ task_history_seq (fst state') = task_history_seq (fst state)
  /\ List.length (snd state') = S (List.length (snd state)).
Proof.
  destruct state as [d results], numbered as [i account]. simpl.
  rewrite length_app, Nat.add_1_r.
  destruct (outcome_success _) eqn:Hsuccess.
  - apply success_means_positive in Hsuccess.
    split; [apply update_credited; lia|]. repeat split.
  - split; [apply Forall2_credited_refl|]. repeat split.
Qed.

Lemma daily_rounds_credit task_xp clock numbered :
  forall state,
    let state' := fold_left (daily_round login task_xp clock) numbered state in
    Forall2 credited (accounts (fst state)) (accounts (fst state'))
    /\ accounts_seq (fst state') = accounts_seq (fst state)
    /\ task_history (fst state') = task_history (fst state)
    /\ task_history_seq (fst state') = task_history_seq (fst state)
    /\ List.length (snd state') =
       (List.length (snd state) + List.length numbered)%nat.
Proof.
  induction numbered as [|ia numbered IH]; intros state; simpl.
  - repeat split; try reflexivity; [apply Forall2_credited_refl|lia].
  - destruct (daily_round_credits task_xp clock state ia)
      as (H1 & H2 & H3 & H4 & H5).
    destruct (IH (daily_round login task_xp clock state ia))
      as (G1 & G2 & G3 & G4 & G5).
    repeat split; try congruence.
    + eapply Forall2_credited_trans; eassumption.
    + rewrite G5, H5. lia.
Qed.

(** X20.  [run_daily_tasks] only ever credits: it returns one result
    per account and leaves the store with the same rows in the same
    places, each with the same columns except that [points] may have
    grown and [last_task_run] may have been set; no account is added
    or removed, and the task history is not written. *)
Theorem run_daily_tasks_only_credits :
  forall (task_settings : option xp_table) (clock : nat -> timestamp)
         (d : db),
    let d' := fst (run_daily_tasks login task_settings clock d) in
    let results := snd (run_daily_tasks login task_settings clock d) in
    Forall2 credited (accounts d) (accounts d')
    /\ accounts_seq d' = accounts_seq d
    /\ task_history d' = task_history d
    /\ task_history_seq d' = task_history_seq d
    /\ List.length results = List.length (accounts d).
Proof.
  intros task_settings clock d. unfold run_daily_tasks.
  pose proof (order_by_length
                (fun a b => Accounts.created_at b <=? Accounts.created_at a)
                (accounts d)) as Hlen.
  fold (get_all_accounts d) in Hlen.
  destruct (get_all_accounts d) as [|a rest] eqn:Hall.
  - simpl. repeat split; try reflexivity; [apply Forall2_credited_refl|].
    simpl in Hlen. exact Hlen.
  - destruct (daily_rounds_credit (_load_task_xp task_settings) clock
                (combine (seq 0 (List.length (a :: rest))) (a :: rest))
                (d, [])) as (H1 & H2 & H3 & H4 & H5).
    simpl fst in *. simpl snd in *.
    repeat split; try assumption.
    rewrite H5, length_combine, length_seq, Nat.min_id. simpl.
    simpl in Hlen. exact Hlen.
Qed.
End DailyRun.


Section DailyRunAmounts.
Variables (login : string -> string -> bool) (task_xp : xp_table)
          (clock : nat -> timestamp).



End DailyRunAmounts.



(** A table whose total is no 64-bit integer: every credit raises in
    the binding, every round ends in the [except] clause, and the store
    stays as it was. *)
Example sample_run_daily_tasks_overflow :
  SoSoValueBot.run_daily_tasks (fun _ _ => true)
                               (Some [("checkin", 2 ^ 63)])
                               (fun _ => sample_now) sample_store
  = Some (sample_store,
          map (fun email =>
                 RoundError email
                   "Python int too large to convert to SQLite INTEGER")
              ["d@example.com"; "c@example.com"; "b@example.com";
               "a@example.com"]).
Proof. reflexivity. Qed.

(** * Properties of the Gmail setup *)

Lemma endswith_in suffix s :
  suffix <> "" -> py_endswith suffix s = true -> py_in suffix s = true.
Proof.
  intros Hsuffix Hends. unfold py_endswith in Hends.
  apply andb_true_iff in Hends. destruct Hends as [_ Hsub].
  apply String.eqb_eq in Hsub. unfold py_in.
  destruct (index 0 suffix s) eqn:Hindex; [reflexivity|].
  exfalso.
  apply (index_correct3 0 (String.length s - String.length suffix)
                        suffix s Hindex Hsuffix (Nat.le_0_l _)).
  exact Hsub.
Qed.

Lemma getitem_config_set key value config :
  getitem key (PyDict (config_set key value config)) = Some value.
Proof.
  unfold getitem.
  induction config as [|[k v] config IH]; simpl.
  - rewrite String.eqb_refl. reflexivity.
  - destruct (String.eqb_spec k key) as [->|Hne]; simpl.
    + rewrite String.eqb_refl. reflexivity.
    + destruct (String.eqb_spec k key); [congruence|exact IH].
Qed.

(** X22.  Every address [setup_gmail] accepts is one the generator
    treats as a Gmail address, and it is written to the configuration
    under ["base_gmail"].  When fewer than two characters come before
    its first ["@"], the setup still accepts and writes it, the
    examples that follow raise, and from then on [getmails] raises for
    every positive count. *)
Theorem setup_gmail_accepts_short_addresses :
  forall (config : pydict) (draws : nat -> random_draws) (base : string),
    py_endswith "@gmail.com" base = true ->
    py_in "@gmail.com" base = true
    /\ exists examples,
         setup_gmail config draws base =
         SetupDone (config_set "base_gmail" (PyStr base) config) examples
         /\ getitem "base_gmail"
                    (PyDict (config_set "base_gmail" (PyStr base) config))
            = Some (PyStr base)
         /\ ((String.length (before_at base) < 2)%nat ->
             examples = None
             /\ forall draws' count,
                  0 < count -> getmails base draws' count = MailsValueError).
Proof.
  intros config draws base Hends.
  assert (Hin : py_in "@gmail.com" base = true)
    by (apply endswith_in; [discriminate|exact Hends]).
  split; [exact Hin|].
  unfold setup_gmail. rewrite Hends. simpl negb. cbv iota.
  eexists. split; [reflexivity|]. split; [apply getitem_config_set|].
  intros Hshort.
  assert (Hraise : forall r, generate_gmail_variation r base =
                             RaisesValueError).
  { intros r. unfold generate_gmail_variation.
    rewrite (py_in_gmail_nonempty base Hin), Hin. simpl.
    destruct (Z.ltb_spec
                (Z.min 3 (Z.of_nat (String.length (before_at base)) - 1)) 1);
      [reflexivity|lia]. }
  split.
  - apply generate_each_none; [apply Hraise|lia].
  - intros draws' count Hcount. unfold getmails.
    rewrite (py_in_gmail_nonempty base Hin).
    rewrite generate_each_none; [reflexivity|apply Hraise|lia].
Qed.

Lemma setup_gmail_accepts_short_addresses_witness :
  exists config,
    setup_gmail [("referral_code", PyStr "NPH90834"); ("base_gmail", PyStr "")]
                (fun _ => lowest_draws) "a@gmail.com"
    = SetupDone config None
    /\ getitem "base_gmail" (PyDict config) = Some (PyStr "a@gmail.com").
Proof.
  destruct (setup_gmail_accepts_short_addresses
              [("referral_code", PyStr "NPH90834"); ("base_gmail", PyStr "")]
              (fun _ => lowest_draws) "a@gmail.com" eq_refl)
    as (_ & examples & Hsetup & Hconfig & Hshort).
  destruct Hshort as [-> _]; [simpl; lia|].
  eexists. split; [exact Hsetup|exact Hconfig].
Defined.

(** * Worked examples *)

Example sample_three_dots :
  generate_gmail_variation
    {| randint := fun _ _ => 3;
       sample := fun _ _ => [5; 2; 7]%nat;
       choice_adjective := 0;
       choice_noun := 0;
       choices_digits := [0; 0; 0]%nat;
       choice_domain := 0 |}
    "johnbull@gmail.com"
  = Generated "jo.hnb.ul.l@gmail.com".
Proof. reflexivity. Qed.

Example sample_temp_email :
  generate_gmail_variation lowest_draws "someone@example.org"
  = Generated "quickfox000@tempmail.com".
Proof. reflexivity. Qed.

Example sample_getmails_none :
  getmails "johnbull@gmail.com" (fun _ => lowest_draws) 0 = Mails [].
Proof. reflexivity. Qed.

Example sample_load_task_xp :
  _load_task_xp (Some [("video", 8); ("bonus", 2)])
  = [ ("checkin", 10); ("video", 8); ("article", 3); ("share", 5);
      ("like", 1); ("follow", 3); ("profile", 4); ("bonus", 2) ].
Proof. reflexivity. Qed.

Example sample_run_daily_tasks :
  let login := fun e _ => negb (e =? "c@example.com")%string in
  map (fun r => (Accounts.email r, Accounts.points r, Accounts.last_task_run r))
      (accounts (fst (run_daily_tasks login None (fun i => 200000 + Z.of_nat i)
                                      sample_store)))
  = [ ("a@example.com", 41, Some 200003);
      ("b@example.com", 61, Some 200002);
      ("c@example.com", 0, None);
      ("d@example.com", 31, Some 200000) ].
Proof. reflexivity. Qed.

Example sample_export_to_csv :
  map (@List.length pyval) (export_to_csv (fun _ => "") sample_store)
  = [12; 12; 12; 12; 12]%nat
  /\ export_to_csv (fun _ => "") init_database = [].
Proof. split; reflexivity. Qed.
